(** * csv-service: the job processing pipeline, embedded and verified

    A shallow embedding of the TypeScript sources of the CSV import service:

    - [src/utils/validators.ts]  ([customerRowSchema]),
    - [src/services/csv.service.ts]  ([normalizeRow], [countRows], [processFile]),
    - [src/services/jobs.service.ts]  ([processCsvJob], [persistProgress],
      [buildJobErrorReport], [sanitizeFilename], ...),
    - [src/services/sse.service.ts]  (the observer registry),
    - [src/controllers/jobs.controller.ts]  ([streamJob]),
    - [src/queue/InMemoryJobQueue.ts]  (the FIFO queue and its drain loop).

    Conventions of the embedding.

    - A JavaScript string is a [string]; its characters are read as code
      units below 256, which fixes what [trim] and [toLowerCase] do.
    - A JavaScript number holding a count is a [Z].
    - A [Record<string, unknown>] coming out of csv-parser is a
      [gmap string string].
    - A [Date] is a [Z] read from the clock of the world.
    - An [async] function is a computation in the monad [M]: a state
      transformer over the whole process state that returns a value,
      throws, or never settles because the process died.  State changes
      made before a throw are kept, as in JavaScript.
    - The environment (zod's e-mail test, Mongoose's ObjectId test, failures
      of the database, of the file stream and of a connection) is an
      explicit parameter [Env]. *)

From stdpp Require Import gmap strings list fin_maps pretty.
From Stdlib Require Import ZArith Ascii String Lia.

Open Scope string_scope.
Open Scope list_scope.
Open Scope Z_scope.

(** ** JavaScript strings *)

Module Js.

Definition chars (s : string) : list ascii := list_ascii_of_string s.
Definition str (l : list ascii) : string := string_of_list_ascii l.

Definition code (c : ascii) : nat := nat_of_ascii c.

Definition between (lo hi : nat) (c : ascii) : bool :=
  (Nat.leb lo (code c) && Nat.leb (code c) hi)%bool.

(** White space as [String.prototype.trim] sees it, among code units
    below 256: TAB, LF, VT, FF, CR, SPACE and NBSP. *)
Definition isWhiteSpace (c : ascii) : bool :=
  (between 9 13 c || Nat.eqb (code c) 32 || Nat.eqb (code c) 160)%bool.

Fixpoint trimStart (l : list ascii) : list ascii :=
  match l with
  | c :: l' => if isWhiteSpace c then trimStart l' else l
  | [] => []
  end.

Definition trimEnd (l : list ascii) : list ascii :=
  rev (trimStart (rev l)).

(** A list that does not begin with white space. *)
Definition startsClean (l : list ascii) : Prop :=
  match l with c :: _ => isWhiteSpace c = false | [] => True end.

(** [s.trim()] *)
Definition trim (s : string) : string :=
  str (trimEnd (trimStart (chars s))).

Definition lowerChar (c : ascii) : ascii :=
  if (between 65 90 c || (between 192 222 c && negb (Nat.eqb (code c) 215)))%bool
  then ascii_of_nat (code c + 32)
  else c.

(** [s.toLowerCase()] *)
Definition toLowerCase (s : string) : string :=
  str (map lowerChar (chars s)).

(** The class [\w] of a regular expression: [[A-Za-z0-9_]]. *)
Definition isWordChar (c : ascii) : bool :=
  (between 48 57 c || between 65 90 c || between 97 122 c
   || Nat.eqb (code c) 95)%bool.

Definition isChar (d c : ascii) : bool :=
  if decide (c = d) then true else false.

(** [s.includes(c)] for a one-character needle. *)
Definition includesChar (d : ascii) (s : string) : bool :=
  existsb (isChar d) (chars s).

(** [parts.join(sep)] *)
Fixpoint join (sep : string) (parts : list string) : string :=
  match parts with
  | [] => ""
  | [p] => p
  | p :: rest => p +:+ sep +:+ join sep rest
  end.

(** [s.replace(/\.[^.]+$/, EMPTY)]: the pattern is tried at each position
    from the left; it matches where a dot is followed, up to the end of
    the input, by one or more characters none of which is a dot, and the
    match is replaced by the empty string. *)
Definition nonDotsToEnd (l : list ascii) : bool :=
  (negb (bool_decide (l = [])) && forallb (fun c => negb (isChar "." c)) l)%bool.

Fixpoint replaceExtension (l : list ascii) : list ascii :=
  match l with
  | [] => []
  | c :: rest =>
      if (isChar "." c && nonDotsToEnd rest)%bool then []
      else c :: replaceExtension rest
  end.

(** [s.replace(/[cls]+/g, UNDERSCORE)] for a character class [cls]: at each
    position the greedy, one-or-more match of the class is attempted;
    a match is replaced by one underscore and the scan resumes behind it,
    a failure copies the character.  [skipping] tells that the scan is
    inside a match. *)
Fixpoint replaceClassRuns (cls : ascii -> bool) (skipping : bool)
    (l : list ascii) : list ascii :=
  match l with
  | [] => []
  | c :: rest =>
      if cls c then
        if skipping then replaceClassRuns cls true rest
        else "_"%char :: replaceClassRuns cls true rest
      else c :: replaceClassRuns cls false rest
  end.

(** The class [[^\w.-]] of [sanitizeFilename]. *)
Definition notNameChar (c : ascii) : bool :=
  negb (isWordChar c || isChar "." c || isChar "-" c).

Definition quoteChar : ascii := "034"%char.
Definition newlineChar : ascii := "010"%char.

(** [s.replace(/QUOTE/g, QUOTE QUOTE)]: every double quote is doubled. *)
Definition doubleQuotes (l : list ascii) : list ascii :=
  flat_map (fun c => if isChar quoteChar c then [c; c] else [c]) l.

End Js.

(** ** Reading a filename as the specification words it

    These definitions follow the sentence of the specification, not the
    code: the final extension is what follows the last dot, and a string is
    cut into its maximal runs of characters of one kind. *)

Module Spec.

(** The maximal runs of [l], each with the kind ([cls]) of its members. *)
Fixpoint runs (cls : ascii -> bool) (l : list ascii) : list (bool * list ascii) :=
  match l with
  | [] => []
  | c :: rest =>
      match runs cls rest with
      | (b, r) :: more =>
          if Bool.eqb b (cls c) then (b, c :: r) :: more
          else (cls c, [c]) :: (b, r) :: more
      | [] => [(cls c, [c])]
      end
  end.

(** Every run of the kind [cls] becomes one underscore. *)
Definition collapseRuns (cls : ascii -> bool) (l : list ascii) : list ascii :=
  flat_map (fun br : bool * list ascii => if br.1 then ["_"%char] else br.2)
           (runs cls l).

(** [l] cut at its last dot: what precedes the dot, and what follows. *)
Fixpoint splitLastDot (l : list ascii) : option (list ascii * list ascii) :=
  match l with
  | [] => None
  | c :: rest =>
      match splitLastDot rest with
      | Some (pre, ext) => Some (c :: pre, ext)
      | None => if Js.isChar "." c then Some ([], rest) else None
      end
  end.

(** The name without its final extension; a name whose last dot is its
    last character has no extension. *)
Definition stripFinalExtension (l : list ascii) : list ascii :=
  match splitLastDot l with
  | Some (pre, _ :: _) => pre
  | _ => l
  end.

(** What is left of the collapsed string behind a leading run of the
    kind [cls]. *)
Definition collapseTail (cls : ascii -> bool) (l : list ascii) : list ascii :=
  match runs cls l with
  | (true, _) :: more =>
      flat_map (fun br : bool * list ascii => if br.1 then ["_"%char] else br.2) more
  | _ => collapseRuns cls l
  end.

(** Neighbouring runs are of different kinds. *)
Fixpoint alternating (bs : list bool) : Prop :=
  match bs with
  | b1 :: ((b2 :: _) as rest) => b1 <> b2 /\ alternating rest
  | _ => True
  end.

Definition nonWord (c : ascii) : bool := negb (Js.isWordChar c).

(** Characters other than word characters, the dot and the hyphen. *)
Definition unsafeChar (c : ascii) : bool :=
  (nonWord c && negb (Js.isChar "." c) && negb (Js.isChar "-" c))%bool.

Definition reportName (cls : ascii -> bool) (filename : string) : string :=
  let base := Js.str (collapseRuns cls (stripFinalExtension (Js.chars filename))) in
  (if decide (base = "") then "job" else base) +:+ "_errors.csv".

(** The filename of the error report as the claim words it: runs of
    non-word characters are collapsed. *)
Definition claimedReportFilename : string -> string := reportName nonWord.

(** The same with the class the code uses: the dot and the hyphen are
    kept. *)
Definition amendedReportFilename : string -> string := reportName unsafeChar.

End Spec.

(** ** Data model: [src/models/Job.ts], [src/models/Customer.ts] *)

Inductive JobStatus := pending | processing | completed | failed.

#[global] Instance JobStatus_eq_dec : EqDecision JobStatus.
Proof. solve_decision. Defined.

(** [JobError] *)
Record JobError := {
  rowNumber : Z;
  message : string;
  row : option (gmap string string);
}.

(** The document of a job as [jobs.service.ts] holds it.  The fields are
    those of [JobDoc] in [src/models/Job.ts], and two more, [startedAt] and
    [lastError]: [processCsvJob] and [persistProgress] assign them to the
    hydrated document and [toProgress] reads them back, but the schema of
    [Job.ts] has no such path, so that a save does not write them (see
    [persisted] below) and a document read from the Job Store has
    neither. *)
Record JobDoc := {
  _id : string;
  filename : string;
  status : JobStatus;
  totalRows : Z;
  processedRows : Z;
  successCount : Z;
  failedCount : Z;
  errors : list JobError;
  lastError : option string;
  createdAt : Z;
  startedAt : option Z;
  completedAt : option Z;
}.

(** What a save writes of a document: the paths of the schema. *)
Definition persisted (d : JobDoc) : JobDoc :=
  {| _id := _id d; filename := filename d; status := status d;
     totalRows := totalRows d; processedRows := processedRows d;
     successCount := successCount d; failedCount := failedCount d;
     errors := errors d; lastError := None; createdAt := createdAt d;
     startedAt := None; completedAt := completedAt d |}.

(** [CustomerDoc]; [phone] is optional. *)
Record CustomerDoc := {
  c_name : string;
  c_email : string;
  c_phone : option string;
  c_company : string;
  c_jobId : string;
  c_createdAt : Z;
}.

(** ** The error report: [jobs.service.ts], lines 105-157 *)

Record ErrorReport := {
  report_filename : string;
  report_csv : string;
  report_errorCount : nat;
}.

Definition ERROR_REPORT_HEADER : list string :=
  ["rowNumber"; "name"; "email"; "phone"; "company"; "error"].

Definition valueOrEmpty (value : option string) : string :=
  match value with Some s => s | None => "" end.

Definition formatErrorRow (error : JobError) : list string :=
  let r := default ∅ (row error) in
  [ pretty (rowNumber error);
    valueOrEmpty (r !! "name");
    valueOrEmpty (r !! "email");
    valueOrEmpty (r !! "phone");
    valueOrEmpty (r !! "company");
    message error ].

Definition escapeCsv (value : string) : string :=
  if (Js.includesChar Js.quoteChar value || Js.includesChar "," value
      || Js.includesChar Js.newlineChar value)%bool
  then Js.str (Js.quoteChar :: Js.doubleQuotes (Js.chars value) ++ [Js.quoteChar])
  else value.

Definition sanitizeFilename (filename : string) : string :=
  let base := Js.replaceExtension (Js.chars filename) in
  let safe := Js.str (Js.replaceClassRuns Js.notNameChar false base) in
  if decide (safe = "") then "job" else safe.

(** [Job.findById(jobId).lean()] is a lookup in the Job Store. *)
Definition buildJobErrorReport (jobId : string) (jobStore : gmap string JobDoc)
    : option ErrorReport :=
  match jobStore !! jobId with
  | None => None
  | Some job =>
      let rows := map formatErrorRow (errors job) in
      let csvLines :=
        map (fun cols => Js.join "," (map escapeCsv cols)) (ERROR_REPORT_HEADER :: rows) in
      let safeBase :=
        sanitizeFilename (if decide (filename job = "") then "job" else filename job) in
      Some {| report_filename := safeBase +:+ "_errors.csv";
              report_csv := Js.join (Js.str [Js.newlineChar]) csvLines;
              report_errorCount := List.length rows |}
  end.


(** ** Exceptions and results *)

Module Exn.
(** A thrown value, as far as the code inspects it:
    [err instanceof Error], [err?.message] and [err?.code]. *)
Record t := {
  isError : bool;
  message : option string;
  code : option Z;
}.

Definition error (msg : string) : t :=
  {| isError := true; message := Some msg; code := None |}.

(** What MongoDB answers to a violated unique index (E11000). *)
Definition duplicateKey : t :=
  {| isError := true; message := Some "E11000 duplicate key error";
     code := Some 11000 |}.

(** What Mongoose answers to a violated [required] validator. *)
Definition validationError : t := error "Customer validation failed".

(** What [fs] answers for a path that does not exist. *)
Definition enoent : t :=
  {| isError := true; message := Some "ENOENT: no such file or directory";
     code := None |}.
End Exn.

(** How an [async] function ends: its promise is fulfilled, it is
    rejected, or it never settles because the process died.  The last
    happens when a stream emits [error] and nobody listens: Node throws the
    error out of the event loop, where no [catch] block and no rejection
    handler sees it. *)
Inductive Res (A : Type) :=
| Ok (a : A)
| Throw (e : Exn.t)
| Crash.
Arguments Ok {A} a.
Arguments Throw {A} e.
Arguments Crash {A}.

(** ** What the importer accumulates: [CsvProgress] of [csv.service.ts] *)

Module CsvProgress.
Record t := {
  totalRows : Z;
  processedRows : Z;
  successCount : Z;
  failedCount : Z;
  errors : list JobError;
  lastError : option string;
}.

(** [progress.failedCount += 1] and the like. *)
Definition addFailed (p : t) : t :=
  {| totalRows := totalRows p; processedRows := processedRows p;
     successCount := successCount p; failedCount := failedCount p + 1;
     errors := errors p; lastError := lastError p |}.
Definition addProcessed (p : t) : t :=
  {| totalRows := totalRows p; processedRows := processedRows p + 1;
     successCount := successCount p; failedCount := failedCount p;
     errors := errors p; lastError := lastError p |}.
Definition addSuccess (p : t) : t :=
  {| totalRows := totalRows p; processedRows := processedRows p;
     successCount := successCount p + 1; failedCount := failedCount p;
     errors := errors p; lastError := lastError p |}.
Definition withLastError (m : option string) (p : t) : t :=
  {| totalRows := totalRows p; processedRows := processedRows p;
     successCount := successCount p; failedCount := failedCount p;
     errors := errors p; lastError := m |}.

(** [if (progress.errors.length < maxErrors) progress.errors.push(e)] *)
Definition push (maxErrors : Z) (e : JobError) (p : t) : t :=
  {| totalRows := totalRows p; processedRows := processedRows p;
     successCount := successCount p; failedCount := failedCount p;
     errors := if Z.of_nat (List.length (errors p)) <? maxErrors
               then errors p ++ [e] else errors p;
     lastError := lastError p |}.
End CsvProgress.

(** A data row as csv-parser yields it: header name to cell. *)
Abbreviation RawRow := (gmap string string).

(** ** Server-sent events *)

(** The progress snapshot of [toProgress] and [toProgressPayload]. *)
Module Snapshot.
Record t := {
  jobId : string;
  filename : string;
  status : JobStatus;
  totalRows : Z;
  processedRows : Z;
  successCount : Z;
  failedCount : Z;
  errorCount : nat;
  startedAt : option Z;
  completedAt : option Z;
  lastError : option string;
  createdAt : Z;
}.
End Snapshot.

(** The [data] of an event, before [JSON.stringify]. *)
Inductive Data :=
| DProgress (p : Snapshot.t)
| DDone (jobId : string) (status : JobStatus)
| DMessage (message : string)
| DJobId (jobId : string).

(** One [res.write(chunk)]. *)
Inductive Chunk :=
| CRetry                                   (* retry: 2000, blank line *)
| CEvent (event : string)                  (* event: NAME *)
| CData (data : Data)                      (* data: JSON, blank line *)
| CEventData (event : string) (data : Data) (* both in one chunk *)
| CPing.                                   (* a comment, blank line *)

Module Response.
Record t := {
  statusCode : option Z;
  headers : list (string * string);
  json : option Data;
  written : list Chunk;
  ended : bool;
}.

Definition fresh : t :=
  {| statusCode := None; headers := []; json := None; written := [];
     ended := false |}.

Definition status (c : Z) (r : t) : t :=
  {| statusCode := Some c; headers := headers r; json := json r;
     written := written r; ended := ended r |}.
Definition setHeader (k v : string) (r : t) : t :=
  {| statusCode := statusCode r; headers := headers r ++ [(k, v)];
     json := json r; written := written r; ended := ended r |}.
Definition sendJson (d : Data) (r : t) : t :=
  {| statusCode := statusCode r; headers := headers r; json := Some d;
     written := written r; ended := true |}.
Definition write (c : Chunk) (r : t) : t :=
  {| statusCode := statusCode r; headers := headers r; json := json r;
     written := written r ++ [c]; ended := ended r |}.
Definition end_ (r : t) : t :=
  {| statusCode := statusCode r; headers := headers r; json := json r;
     written := written r; ended := true |}.
End Response.

(** The events an EventSource dispatches for a sequence of chunks: an
    event is dispatched at the blank line that follows its data, under the
    name given by the last [event:] line, and a blank line forgets that
    name. *)
Fixpoint received (pending : option string) (cs : list Chunk)
    : list (string * Data) :=
  match cs with
  | [] => []
  | CEvent e :: cs => received (Some e) cs
  | CData d :: cs => (default "message" pending, d) :: received None cs
  | CEventData e d :: cs => (e, d) :: received None cs
  | CRetry :: cs | CPing :: cs => received None cs
  end.

(** ** The state of the process and of its collaborators *)

(** What happened, for the statements about save points and published
    events.  The code does not read this log. *)
Inductive Effect :=
| Saved (doc : JobDoc)                               (* a [save()] that succeeded *)
| Inserted (c : CustomerDoc)                         (* a [Customer.create] that succeeded *)
| Published (jobId event : string) (data : Data)     (* a call of [broadcast] *)
| PublishedAndClosed (jobId event : string) (data : Data)
                                                     (* a call of [broadcastAndClose] *)
| Unlinked (filePath : string).                      (* an [unlink] that succeeded *)

Record State := {
  (** the Job Store: the [jobs] collection *)
  jobStore : gmap string JobDoc;
  (** the Record Store: the [customers] collection, oldest first *)
  customerStore : list CustomerDoc;
  (** temporary storage: the data rows csv-parser reads from each file *)
  files : gmap string (list RawRow);
  (** [sse.service.ts]: the observers of each job, in insertion order *)
  clientsByJobId : gmap string (list nat);
  (** what was done to each [Response] object *)
  responses : gmap nat Response.t;
  (** the responses with a keep-alive interval *)
  pingTimers : list nat;
  (** the responses whose request has a [close] handler, with its job *)
  closeHandlers : gmap nat string;
  (** the hydrated document held by the running [processCsvJob] *)
  job : JobDoc;
  (** the [progress] object of the running [processFile] *)
  progress : CsvProgress.t;
  (** [currentRow] of the running [processFile] *)
  currentRow : Z;
  (** the time [new Date()] returns next *)
  clock : Z;
  (** the writes to the [jobs] collection so far *)
  saveCalls : nat;
  (** the inserts into [customers] that reached the database so far *)
  createCalls : nat;
  (** the read streams opened so far *)
  streamsOpened : nat;
  (** what happened, oldest first *)
  history : list Effect;
}.

Definition set_jobStore (v : gmap string JobDoc) (s : State) : State :=
  {| jobStore := v; customerStore := customerStore s; files := files s;
     clientsByJobId := clientsByJobId s; responses := responses s;
     pingTimers := pingTimers s; closeHandlers := closeHandlers s;
     job := job s; progress := progress s; currentRow := currentRow s;
     clock := clock s; saveCalls := saveCalls s;
     createCalls := createCalls s; streamsOpened := streamsOpened s;
     history := history s |}.

Definition set_customerStore (v : list CustomerDoc) (s : State) : State :=
  {| jobStore := jobStore s; customerStore := v; files := files s;
     clientsByJobId := clientsByJobId s; responses := responses s;
     pingTimers := pingTimers s; closeHandlers := closeHandlers s;
     job := job s; progress := progress s; currentRow := currentRow s;
     clock := clock s; saveCalls := saveCalls s;
     createCalls := createCalls s; streamsOpened := streamsOpened s;
     history := history s |}.

Definition set_files (v : gmap string (list RawRow)) (s : State) : State :=
  {| jobStore := jobStore s; customerStore := customerStore s; files := v;
     clientsByJobId := clientsByJobId s; responses := responses s;
     pingTimers := pingTimers s; closeHandlers := closeHandlers s;
     job := job s; progress := progress s; currentRow := currentRow s;
     clock := clock s; saveCalls := saveCalls s;
     createCalls := createCalls s; streamsOpened := streamsOpened s;
     history := history s |}.

Definition set_clientsByJobId (v : gmap string (list nat)) (s : State) : State :=
  {| jobStore := jobStore s; customerStore := customerStore s;
     files := files s; clientsByJobId := v; responses := responses s;
     pingTimers := pingTimers s; closeHandlers := closeHandlers s;
     job := job s; progress := progress s; currentRow := currentRow s;
     clock := clock s; saveCalls := saveCalls s;
     createCalls := createCalls s; streamsOpened := streamsOpened s;
     history := history s |}.

Definition set_responses (v : gmap nat Response.t) (s : State) : State :=
  {| jobStore := jobStore s; customerStore := customerStore s;
     files := files s; clientsByJobId := clientsByJobId s; responses := v;
     pingTimers := pingTimers s; closeHandlers := closeHandlers s;
     job := job s; progress := progress s; currentRow := currentRow s;
     clock := clock s; saveCalls := saveCalls s;
     createCalls := createCalls s; streamsOpened := streamsOpened s;
     history := history s |}.

Definition set_pingTimers (v : list nat) (s : State) : State :=
  {| jobStore := jobStore s; customerStore := customerStore s;
     files := files s; clientsByJobId := clientsByJobId s;
     responses := responses s; pingTimers := v;
     closeHandlers := closeHandlers s; job := job s; progress := progress s;
     currentRow := currentRow s; clock := clock s; saveCalls := saveCalls s;
     createCalls := createCalls s; streamsOpened := streamsOpened s;
     history := history s |}.

Definition set_closeHandlers (v : gmap nat string) (s : State) : State :=
  {| jobStore := jobStore s; customerStore := customerStore s;
     files := files s; clientsByJobId := clientsByJobId s;
     responses := responses s; pingTimers := pingTimers s;
     closeHandlers := v; job := job s; progress := progress s;
     currentRow := currentRow s; clock := clock s; saveCalls := saveCalls s;
     createCalls := createCalls s; streamsOpened := streamsOpened s;
     history := history s |}.

Definition set_job (v : JobDoc) (s : State) : State :=
  {| jobStore := jobStore s; customerStore := customerStore s;
     files := files s; clientsByJobId := clientsByJobId s;
     responses := responses s; pingTimers := pingTimers s;
     closeHandlers := closeHandlers s; job := v; progress := progress s;
     currentRow := currentRow s; clock := clock s; saveCalls := saveCalls s;
     createCalls := createCalls s; streamsOpened := streamsOpened s;
     history := history s |}.

Definition set_progress (v : CsvProgress.t) (s : State) : State :=
  {| jobStore := jobStore s; customerStore := customerStore s;
     files := files s; clientsByJobId := clientsByJobId s;
     responses := responses s; pingTimers := pingTimers s;
     closeHandlers := closeHandlers s; job := job s; progress := v;
     currentRow := currentRow s; clock := clock s; saveCalls := saveCalls s;
     createCalls := createCalls s; streamsOpened := streamsOpened s;
     history := history s |}.

Definition set_currentRow (v : Z) (s : State) : State :=
  {| jobStore := jobStore s; customerStore := customerStore s;
     files := files s; clientsByJobId := clientsByJobId s;
     responses := responses s; pingTimers := pingTimers s;
     closeHandlers := closeHandlers s; job := job s; progress := progress s;
     currentRow := v; clock := clock s; saveCalls := saveCalls s;
     createCalls := createCalls s; streamsOpened := streamsOpened s;
     history := history s |}.

Definition set_clock (v : Z) (s : State) : State :=
  {| jobStore := jobStore s; customerStore := customerStore s;
     files := files s; clientsByJobId := clientsByJobId s;
     responses := responses s; pingTimers := pingTimers s;
     closeHandlers := closeHandlers s; job := job s; progress := progress s;
     currentRow := currentRow s; clock := v; saveCalls := saveCalls s;
     createCalls := createCalls s; streamsOpened := streamsOpened s;
     history := history s |}.

Definition set_saveCalls (v : nat) (s : State) : State :=
  {| jobStore := jobStore s; customerStore := customerStore s;
     files := files s; clientsByJobId := clientsByJobId s;
     responses := responses s; pingTimers := pingTimers s;
     closeHandlers := closeHandlers s; job := job s; progress := progress s;
     currentRow := currentRow s; clock := clock s; saveCalls := v;
     createCalls := createCalls s; streamsOpened := streamsOpened s;
     history := history s |}.

Definition set_createCalls (v : nat) (s : State) : State :=
  {| jobStore := jobStore s; customerStore := customerStore s;
     files := files s; clientsByJobId := clientsByJobId s;
     responses := responses s; pingTimers := pingTimers s;
     closeHandlers := closeHandlers s; job := job s; progress := progress s;
     currentRow := currentRow s; clock := clock s; saveCalls := saveCalls s;
     createCalls := v; streamsOpened := streamsOpened s;
     history := history s |}.

Definition set_streamsOpened (v : nat) (s : State) : State :=
  {| jobStore := jobStore s; customerStore := customerStore s;
     files := files s; clientsByJobId := clientsByJobId s;
     responses := responses s; pingTimers := pingTimers s;
     closeHandlers := closeHandlers s; job := job s; progress := progress s;
     currentRow := currentRow s; clock := clock s; saveCalls := saveCalls s;
     createCalls := createCalls s; streamsOpened := v; history := history s |}.

Definition set_history (v : list Effect) (s : State) : State :=
  {| jobStore := jobStore s; customerStore := customerStore s;
     files := files s; clientsByJobId := clientsByJobId s;
     responses := responses s; pingTimers := pingTimers s;
     closeHandlers := closeHandlers s; job := job s; progress := progress s;
     currentRow := currentRow s; clock := clock s; saveCalls := saveCalls s;
     createCalls := createCalls s; streamsOpened := streamsOpened s;
     history := v |}.

(** ** The environment *)

Record Env := {
  (** zod's [.email()] test *)
  isEmail : string -> bool;
  (** [Types.ObjectId.isValid] *)
  isValidObjectId : string -> bool;
  (** the identifier Mongoose gives to the n-th document it creates *)
  newObjectId : nat -> string;
  (** the n-th [job.save()] rejects with this *)
  saveFailure : nat -> option Exn.t;
  (** the n-th insert into [customers] rejects with this, for a reason
      other than the unique index *)
  createFailure : nat -> option Exn.t;
  (** the n-th file stream emits [error] with this once that many rows
      were handled *)
  streamFailure : nat -> option (nat * Exn.t);
  (** writing to this response throws *)
  writeFailure : nat -> bool;
}.

(** ** The monad of [async] functions *)

Definition M (A : Type) : Type := State -> Res A * State.

Definition ret {A} (a : A) : M A := fun s => (Ok a, s).

Definition bind {A B} (m : M A) (k : A -> M B) : M B := fun s =>
  match m s with
  | (Ok a, s') => k a s'
  | (Throw e, s') => (Throw e, s')
  | (Crash, s') => (Crash, s')
  end.

Definition throw {A} (e : Exn.t) : M A := fun s => (Throw e, s).

(** An [error] event without a listener: nothing of the program runs
    after it. *)
Definition crash {A} : M A := fun s => (Crash, s).

(** [try { m } catch (err) { handler(err) }] *)
Definition try_catch {A} (m : M A) (handler : Exn.t -> M A) : M A := fun s =>
  match m s with
  | (Ok a, s') => (Ok a, s')
  | (Throw e, s') => handler e s'
  | (Crash, s') => (Crash, s')
  end.

(** [try { m } finally { fin }]: [fin] runs when [m] returns and when it
    throws; when [fin] throws, that is what the statement throws. *)
Definition try_finally {A} (m : M A) (fin : M unit) : M A := fun s =>
  match m s with
  | (Crash, s') => (Crash, s')
  | (r, s') =>
      match fin s' with
      | (Ok _, s'') => (r, s'')
      | (Throw e, s'') => (Throw e, s'')
      | (Crash, s'') => (Crash, s'')
      end
  end.

Definition gets {A} (f : State -> A) : M A := fun s => (Ok (f s), s).
Definition modify (f : State -> State) : M unit := fun s => (Ok tt, f s).

Notation "'do' x <- m ; k" := (bind m (fun x => k))
  (at level 10, x name, m at level 100, k at level 200).
Notation "'run' m ; k" := (bind m (fun _ => k))
  (at level 10, m at level 100, k at level 200).

Definition log (e : Effect) : M unit :=
  modify (fun s => set_history (history s ++ [e]) s).

(** [new Date()] *)
Definition newDate : M Z := fun s => (Ok (clock s), set_clock (clock s + 1) s).

(** ** Row validation: [src/utils/validators.ts] *)

Module CustomerRow.
Record t := {
  name : string;
  email : string;
  phone : string;
  company : string;
}.

(** The object as a [Record<string, unknown>]. *)
Definition toRecord (r : t) : RawRow :=
  <["name" := name r]> (<["email" := email r]>
    (<["phone" := phone r]> (<["company" := company r]> ∅))).
End CustomerRow.

(** [a % b !== 0]; the remainder by zero is [NaN], which differs from 0. *)
Definition remainderIsNotZero (a b : Z) : bool :=
  if b =? 0 then true else negb (Z.rem a b =? 0).

Definition DEFAULT_PROGRESS_EVERY : Z := 25.
Definition DEFAULT_MAX_ERRORS : Z := 50.

Module ProcessFileOptions.
Record t := {
  jobId : string;
  filePath : string;
  progressEvery : option Z;
  maxErrors : option Z;
  onProgress : option (CsvProgress.t -> M unit);
}.
End ProcessFileOptions.

Section Service.

Variable E : Env.

(** [customerRowSchema.safeParse], on the object [normalizeRow] builds:
    every field is a string, so [z.string()] accepts each of them and
    [phone], being present, is left as it is by [.optional().default()].
    The issues come in the order of the schema. *)
Definition safeParse (input : CustomerRow.t) : CustomerRow.t + list string :=
  let name := Js.trim (CustomerRow.name input) in
  let email := Js.trim (CustomerRow.email input) in
  let phone := CustomerRow.phone input in
  let company := Js.trim (CustomerRow.company input) in
  let issues : list string :=
    ((if (String.length name <? 1)%nat then ["name is required"] else [])
     ++ (if isEmail E email then [] else ["invalid email"])
     ++ (if (String.length company <? 1)%nat then ["company is required"] else []))%list in
  match issues with
  | [] => inl {| CustomerRow.name := name; CustomerRow.email := email;
                 CustomerRow.phone := phone; CustomerRow.company := company |}
  | _ => inr issues
  end.

(** ** The Record Store: [src/models/Customer.ts] *)

(** [Customer.create]: the setters of the schema ([trim], [lowercase]),
    its [required] validators, then the insert, which the database may
    refuse, in particular for the unique index on [email]. *)
Definition Customer_create (name email : string) (phone : option string)
    (company jobId : string) : M unit :=
  let name := Js.trim name in
  let email := Js.toLowerCase (Js.trim email) in
  let phone := Js.trim <$> phone in
  let company := Js.trim company in
  if (bool_decide (name = "") || bool_decide (email = "")
      || bool_decide (company = ""))%bool
  then throw Exn.validationError
  else
    do n <- gets createCalls;
    run modify (set_createCalls (S n));
    match createFailure E n with
    | Some e => throw e
    | None =>
        do existing <- gets customerStore;
        if existsb (fun c => bool_decide (c_email c = email)) existing
        then throw Exn.duplicateKey
        else
          do now <- newDate;
          let c := {| c_name := name; c_email := email; c_phone := phone;
                      c_company := company; c_jobId := jobId;
                      c_createdAt := now |} in
          run modify (fun s => set_customerStore (customerStore s ++ [c]) s);
          log (Inserted c)
    end.

(** ** The Job Store: [src/models/Job.ts] *)

(** [Job.findById(jobId)] *)
Definition Job_findById (jobId : string) : M (option JobDoc) :=
  gets (fun s => jobStore s !! jobId).

(** A write of [doc] to the [jobs] collection: what is stored, and
    logged as a save point, is [persisted]. *)
Definition writeJob (doc : nat -> JobDoc) : M JobDoc :=
  do n <- gets saveCalls;
  run modify (set_saveCalls (S n));
  match saveFailure E n with
  | Some e => throw e
  | None =>
      run modify (fun s =>
            set_jobStore (<[_id (doc n) := persisted (doc n)]> (jobStore s)) s);
      run log (Saved (persisted (doc n)));
      ret (doc n)
  end.

(** [job.save()] on the hydrated document. *)
Definition job_save : M unit :=
  do j <- gets job;
  do _ <- writeJob (fun _ => j);
  ret tt.

(** ** Temporary storage *)

(** [fs.createReadStream(filePath).pipe(csv())]: the rows the parser
    delivers, and the error the file stream emits behind them, if any: a
    path that does not exist, or a read that fails.  [pipe] does not
    forward an error of the file stream to the parser, and the code
    listens for the errors of the parser only: what an error of the file
    stream does is in [forAwait] and [countRows]. *)
Definition createReadStream (filePath : string) : M (list RawRow * option Exn.t) :=
  do n <- gets streamsOpened;
  run modify (set_streamsOpened (S n));
  do fs <- gets files;
  match fs !! filePath with
  | None => ret ([], Some Exn.enoent)
  | Some rows =>
      match streamFailure E n with
      | Some (k, e) =>
          if (k <=? List.length rows)%nat then ret (take k rows, Some e)
          else ret (rows, None)
      | None => ret (rows, None)
      end
  end.

(** [fs.unlink(filePath)] *)
Definition unlink (filePath : string) : M unit :=
  do fs <- gets files;
  match fs !! filePath with
  | None => throw Exn.enoent
  | Some _ =>
      run modify (fun s => set_files (delete filePath (files s)) s);
      log (Unlinked filePath)
  end.

(** [for await (const raw of stream) body(raw)], over the parser of a
    file stream that emits [failure] behind [rows]: the loop does not
    see that error; nobody does, and the process dies. *)
Fixpoint forAwait (rows : list RawRow) (failure : option Exn.t)
    (body : RawRow -> M unit) : M unit :=
  match rows with
  | raw :: rest => run body raw; forAwait rest failure body
  | [] => match failure with Some _ => crash | None => ret tt end
  end.

(** [for (const x of xs) body(x)] *)
Fixpoint forOf {A} (xs : list A) (body : A -> M unit) : M unit :=
  match xs with
  | x :: rest => run body x; forOf rest body
  | [] => ret tt
  end.

(** ** The Progress Broadcaster: [src/services/sse.service.ts] *)

Definition onResponse (res : nat) (f : Response.t -> Response.t) : M unit :=
  modify (fun s =>
    set_responses
      (<[res := f (default Response.fresh (responses s !! res))]> (responses s)) s).

(** [res.write(chunk)] *)
Definition res_write (res : nat) (chunk : Chunk) : M unit :=
  if writeFailure E res then throw (Exn.error "write failed")
  else onResponse res (Response.write chunk).

(** [res.end()] *)
Definition res_end (res : nat) : M unit := onResponse res Response.end_.

Definition writeSafe (res : nat) (chunk : Chunk) : M bool :=
  try_catch (run res_write res chunk; ret true) (fun _ => ret false).

Definition addClient (jobId : string) (res : nat) : M unit :=
  modify (fun s =>
    let set := default [] (clientsByJobId s !! jobId) in
    let set := if bool_decide (res ∈ set) then set else set ++ [res] in
    set_clientsByJobId (<[jobId := set]> (clientsByJobId s)) s).

Definition removeClient (jobId : string) (res : nat) : M unit :=
  modify (fun s =>
    match clientsByJobId s !! jobId with
    | None => s
    | Some set =>
        let set := filter (fun r => r <> res) set in
        if bool_decide (set = []) then
          set_clientsByJobId (delete jobId (clientsByJobId s)) s
        else set_clientsByJobId (<[jobId := set]> (clientsByJobId s)) s
    end).

Definition sendEvent (res : nat) (event : string) (data : Data) : M unit :=
  do _ <- writeSafe res (CEvent event);
  do _ <- writeSafe res (CData data);
  ret tt.

Definition broadcast (jobId event : string) (data : Data) : M unit :=
  run log (Published jobId event data);
  do clients <- gets clientsByJobId;
  match clients !! jobId with
  | None => ret tt
  | Some set =>
      forOf set (fun res =>
        do ok <- writeSafe res (CEvent event);
        if negb ok then ret tt
        else do _ <- writeSafe res (CData data); ret tt)
  end.

Definition broadcastAndClose (jobId event : string) (data : Data) : M unit :=
  run log (PublishedAndClosed jobId event data);
  do clients <- gets clientsByJobId;
  match clients !! jobId with
  | None => ret tt
  | Some set =>
      run forOf set (fun res =>
        run sendEvent res event data;
        try_catch (res_end res) (fun _ => ret tt));
      modify (fun s => set_clientsByJobId (delete jobId (clientsByJobId s)) s)
  end.

(** ** The File Importer: [src/services/csv.service.ts] *)

Definition normalizeRow (raw : RawRow) : CustomerRow.t :=
  {| CustomerRow.name := Js.trim (default "" (raw !! "name"));
     CustomerRow.email := Js.toLowerCase (Js.trim (default "" (raw !! "email")));
     CustomerRow.phone := Js.trim (default "" (raw !! "phone"));
     CustomerRow.company := Js.trim (default "" (raw !! "company")) |}.

(** The promise of [countRows] is rejected by an [error] of the parser
    and by nothing else: an error of the file stream kills the process
    before the promise settles. *)
Definition countRows (filePath : string) : M Z :=
  do stream <- createReadStream filePath;
  match stream.2 with
  | Some _ => crash
  | None => ret (Z.of_nat (List.length stream.1))
  end.

(** The updates of the [progress] object. *)
Definition updateProgress (f : CsvProgress.t -> CsvProgress.t) : M unit :=
  modify (fun s => set_progress (f (progress s)) s).

(** [progress.errors.push(...)] under its guard
    [progress.errors.length < maxErrors]. *)
Definition pushError (maxErrors : Z) (messageText : string) (r : RawRow) : M unit :=
  modify (fun s =>
    set_progress
      (CsvProgress.push maxErrors
         {| rowNumber := currentRow s; message := messageText; row := Some r |}
         (progress s)) s).

Definition nextRow : M unit :=
  modify (fun s => set_currentRow (currentRow s + 1) s).

(** The message of a failed insert. *)
Definition insertFailureMessage (err : Exn.t) : string :=
  if bool_decide (Exn.code err = Some 11000) then "email must be unique"
  else "failed to insert customer".

Section ProcessFile.

Variable options : ProcessFileOptions.t.

Definition progressEvery : Z :=
  default DEFAULT_PROGRESS_EVERY (ProcessFileOptions.progressEvery options).
Definition maxErrors : Z :=
  default DEFAULT_MAX_ERRORS (ProcessFileOptions.maxErrors options).

(** The callback receives a copy of the progress object. *)
Definition emitProgress (force : bool) : M unit :=
  match ProcessFileOptions.onProgress options with
  | None => ret tt
  | Some onProgress =>
      do p <- gets progress;
      if (negb force
          && remainderIsNotZero (CsvProgress.processedRows p) progressEvery)%bool
      then ret tt
      else onProgress p
  end.

(** The body of the loop over the rows.  [stream.pause] and
    [stream.resume] change nothing here: the rows are handled one
    after the other. *)
Definition rowBody (raw : RawRow) : M unit :=
  match safeParse (normalizeRow raw) with
  | inr issues =>
      run updateProgress CsvProgress.addFailed;
      run updateProgress CsvProgress.addProcessed;
      let messageText := Js.join ", " issues in
      run updateProgress (CsvProgress.withLastError (Some messageText));
      run pushError maxErrors messageText raw;
      run nextRow;
      emitProgress false
  | inl data =>
      run try_catch
        (run Customer_create
               (CustomerRow.name data) (CustomerRow.email data)
               (if bool_decide (CustomerRow.phone data = "") then None
                else Some (CustomerRow.phone data))
               (CustomerRow.company data)
               (ProcessFileOptions.jobId options);
         updateProgress CsvProgress.addSuccess)
        (fun err =>
           run updateProgress CsvProgress.addFailed;
           let messageText := insertFailureMessage err in
           run updateProgress (CsvProgress.withLastError (Some messageText));
           pushError maxErrors messageText (CustomerRow.toRecord data));
      run updateProgress CsvProgress.addProcessed;
      run nextRow;
      emitProgress false
  end.

Definition processFile : M CsvProgress.t :=
  do total <- countRows (ProcessFileOptions.filePath options);
  run modify (set_progress
        {| CsvProgress.totalRows := total; CsvProgress.processedRows := 0;
           CsvProgress.successCount := 0; CsvProgress.failedCount := 0;
           CsvProgress.errors := []; CsvProgress.lastError := None |});
  do stream <- createReadStream (ProcessFileOptions.filePath options);
  run modify (set_currentRow 1);
  run emitProgress true;
  try_catch
    (run forAwait stream.1 stream.2 rowBody;
     run emitProgress true;
     gets progress)
    (fun err =>
       run updateProgress
             (CsvProgress.withLastError
                (Some (if Exn.isError err then default "" (Exn.message err)
                       else "unknown error")));
       run emitProgress true;
       throw err).

End ProcessFile.

(** ** Job lifecycle: [src/services/jobs.service.ts] *)

(** [Job.create] of a pending job: the [required] validator of
    [filename], the identifier and the [createdAt] timestamp. *)
Definition createPendingJob (name : string) : M JobDoc :=
  if bool_decide (name = "") then throw (Exn.error "Job validation failed")
  else
    do now <- newDate;
    writeJob (fun n =>
      {| _id := newObjectId E n; filename := name; status := pending;
         totalRows := 0; processedRows := 0; successCount := 0;
         failedCount := 0; errors := []; lastError := None;
         createdAt := now; startedAt := None; completedAt := None |}).

Definition toProgress (j : JobDoc) : Snapshot.t :=
  {| Snapshot.jobId := _id j;
     Snapshot.filename := filename j;
     Snapshot.status := status j;
     Snapshot.totalRows := totalRows j;
     Snapshot.processedRows := processedRows j;
     Snapshot.successCount := successCount j;
     Snapshot.failedCount := failedCount j;
     Snapshot.errorCount := List.length (errors j);
     Snapshot.startedAt := startedAt j;
     Snapshot.completedAt := completedAt j;
     Snapshot.lastError := lastError j;
     Snapshot.createdAt := createdAt j |}.

(** Assignments to the hydrated document. *)
Definition setJob (f : JobDoc -> JobDoc) : M unit :=
  modify (fun s => set_job (f (job s)) s).

Definition withProgress (p : CsvProgress.t) (j : JobDoc) : JobDoc :=
  {| _id := _id j; filename := filename j; status := status j;
     totalRows := CsvProgress.totalRows p;
     processedRows := CsvProgress.processedRows p;
     successCount := CsvProgress.successCount p;
     failedCount := CsvProgress.failedCount p;
     errors := CsvProgress.errors p;
     lastError := CsvProgress.lastError p;
     createdAt := createdAt j; startedAt := startedAt j;
     completedAt := completedAt j |}.

Definition withStatus (st : JobStatus) (started completed : option Z)
    (lastErr : option string) (j : JobDoc) : JobDoc :=
  {| _id := _id j; filename := filename j; status := st;
     totalRows := totalRows j; processedRows := processedRows j;
     successCount := successCount j; failedCount := failedCount j;
     errors := errors j; lastError := lastErr;
     createdAt := createdAt j; startedAt := started;
     completedAt := completed |}.

Definition persistProgress (p : CsvProgress.t) : M unit :=
  run setJob (withProgress p);
  run job_save;
  do j <- gets job;
  broadcast (_id j) "progress" (DProgress (toProgress j)).

Definition safeDelete (filePath : string) : M unit :=
  try_catch (unlink filePath) (fun _ => ret tt).

(** The options [processCsvJob] gives to [processFile]. *)
Definition importOptions (jobId filePath : string) : ProcessFileOptions.t :=
  {| ProcessFileOptions.jobId := jobId;
     ProcessFileOptions.filePath := filePath;
     ProcessFileOptions.progressEvery := None;
     ProcessFileOptions.maxErrors := None;
     ProcessFileOptions.onProgress := Some persistProgress |}.

(** The [try] block of [processCsvJob]. *)
Definition processCsvJob_try (jobId filePath : string) : M unit :=
  do result <- processFile (importOptions jobId filePath);
  do now <- newDate;
  run setJob (fun j =>
        withStatus completed (startedAt j) (Some now) (lastError j) j);
  run persistProgress result;
  broadcastAndClose jobId "done" (DDone jobId completed).

(** Its [catch] block. *)
Definition processCsvJob_catch (jobId : string) (err : Exn.t) : M unit :=
  do now <- newDate;
  run setJob (fun j =>
        withStatus failed (startedAt j) (Some now)
          (Some (default "job failed unexpectedly" (Exn.message err))) j);
  run job_save;
  do j <- gets job;
  run broadcast jobId "progress" (DProgress (toProgress j));
  run broadcastAndClose jobId "done" (DDone jobId failed);
  throw err.

Definition processCsvJob (jobId filePath : string) : M unit :=
  do found <- Job_findById jobId;
  match found with
  | None => safeDelete filePath
  | Some doc =>
      run modify (set_job doc);
      do now <- newDate;
      run setJob (withStatus processing (Some now) None None);
      run job_save;
      do j <- gets job;
      run broadcast jobId "progress" (DProgress (toProgress j));
      try_finally
        (try_catch (processCsvJob_try jobId filePath) (processCsvJob_catch jobId))
        (safeDelete filePath)
  end.

(** ** Observers: [src/controllers/jobs.controller.ts] *)

Definition toProgressPayload (jobId : string) (j : JobDoc) : Snapshot.t :=
  {| Snapshot.jobId := jobId;
     Snapshot.filename := filename j;
     Snapshot.status := status j;
     Snapshot.totalRows := totalRows j;
     Snapshot.processedRows := processedRows j;
     Snapshot.successCount := successCount j;
     Snapshot.failedCount := failedCount j;
     Snapshot.errorCount := List.length (errors j);
     Snapshot.startedAt := startedAt j;
     Snapshot.completedAt := completedAt j;
     Snapshot.lastError := lastError j;
     Snapshot.createdAt := createdAt j |}.

Definition isTerminal (st : JobStatus) : bool :=
  (bool_decide (st = completed) || bool_decide (st = failed))%bool.

(** [res.status(c).json({ message })] *)
Definition respondJson (res : nat) (c : Z) (d : Data) : M unit :=
  onResponse res (fun r => Response.sendJson d (Response.status c r)).

(** [src/middlewares/error.middleware.ts] *)
Definition errorMiddleware (err : Exn.t) (res : nat) : M unit :=
  if Exn.isError err
  then respondJson res 500 (DMessage (default "" (Exn.message err)))
  else respondJson res 500 (DMessage "Internal Server Error").

Definition streamJob (jobId : string) (res : nat) : M unit :=
  try_catch
    (if (bool_decide (jobId = "") || negb (isValidObjectId E jobId))%bool
     then respondJson res 400 (DMessage "Invalid job id")
     else
       run onResponse res (Response.status 200);
       run onResponse res (Response.setHeader "Content-Type" "text/event-stream");
       run onResponse res (Response.setHeader "Cache-Control" "no-cache, no-transform");
       run onResponse res (Response.setHeader "Connection" "keep-alive");
       run onResponse res (Response.setHeader "X-Accel-Buffering" "no");
       run res_write res CRetry;
       do found <- Job_findById jobId;
       match found with
       | None =>
           run res_write res (CEventData "error" (DMessage "job not found"));
           res_end res
       | Some j =>
           run sendEvent res "progress" (DProgress (toProgressPayload jobId j));
           if isTerminal (status j) then
             run sendEvent res "done" (DDone jobId (status j));
             res_end res
           else
             run addClient jobId res;
             run modify (fun s => set_pingTimers (pingTimers s ++ [res]) s);
             modify (fun s => set_closeHandlers (<[res := jobId]> (closeHandlers s)) s)
       end)
    (fun err => errorMiddleware err res).

(** The keep-alive interval fires for [res]. *)
Definition ping (res : nat) : M unit := res_write res CPing.

(** The [close] handler of the request of [res]. *)
Definition onClose (res : nat) : M unit :=
  do handlers <- gets closeHandlers;
  match handlers !! res with
  | None => ret tt
  | Some jobId =>
      run modify (fun s => set_pingTimers (filter (fun r => r <> res) (pingTimers s)) s);
      run removeClient jobId res;
      res_end res
  end.

End Service.

(** ** The Job Queue: [src/queue/InMemoryJobQueue.ts] *)

Module QueueJob.
Record t := {
  jobId : string;
  filePath : string;
}.
End QueueJob.

#[global] Instance QueueJob_eq_dec : EqDecision QueueJob.t.
Proof. solve_decision. Defined.

(** What the queue did, oldest first.  The code does not read this log. *)
Inductive QueueEvent :=
| Enqueued (j : QueueJob.t)                (* [enqueue(job)] *)
| Invoked (j : QueueJob.t)                 (* [this.worker(job)] is called *)
| Settled (j : QueueJob.t) (ok : bool)     (* its promise is fulfilled or rejected *)
| WorkerFailed (j : QueueJob.t).           (* the [console.error] of the catch *)

Module InMemoryJobQueue.

(** The fields of the class, and what the runtime holds for it: the
    activations of [process()] that are suspended at
    [await this.worker(job)], each with its [job], and the callbacks given
    to [setImmediate] that did not run yet. *)
Record t := {
  queue : list QueueJob.t;
  running : bool;
  started : bool;
  awaiting : list QueueJob.t;
  immediates : nat;
  trace : list QueueEvent;
}.

Definition new : t :=
  {| queue := []; running := false; started := false; awaiting := [];
     immediates := 0; trace := [] |}.

Definition set_queue (v : list QueueJob.t) (q : t) : t :=
  {| queue := v; running := running q; started := started q;
     awaiting := awaiting q; immediates := immediates q; trace := trace q |}.
Definition set_running (v : bool) (q : t) : t :=
  {| queue := queue q; running := v; started := started q;
     awaiting := awaiting q; immediates := immediates q; trace := trace q |}.
Definition set_started (v : bool) (q : t) : t :=
  {| queue := queue q; running := running q; started := v;
     awaiting := awaiting q; immediates := immediates q; trace := trace q |}.
Definition set_awaiting (v : list QueueJob.t) (q : t) : t :=
  {| queue := queue q; running := running q; started := started q;
     awaiting := v; immediates := immediates q; trace := trace q |}.
Definition set_immediates (v : nat) (q : t) : t :=
  {| queue := queue q; running := running q; started := started q;
     awaiting := awaiting q; immediates := v; trace := trace q |}.
Definition record (e : QueueEvent) (q : t) : t :=
  {| queue := queue q; running := running q; started := started q;
     awaiting := awaiting q; immediates := immediates q;
     trace := trace q ++ [e] |}.

(** The [finally] block of [process()]. *)
Definition finally_ (q : t) : t :=
  let q := set_running false q in
  if (started q && (0 <? List.length (queue q))%nat)%bool
  then set_immediates (S (immediates q)) q
  else q.

(** The [while] loop of [process()], from the test of its condition: it
    either takes the first job, calls the worker and suspends at the
    [await], or leaves through the [finally] block. *)
Definition loop (q : t) : t :=
  if (started q && (0 <? List.length (queue q))%nat)%bool then
    match queue q with
    | j :: rest =>
        set_awaiting (awaiting q ++ [j]) (record (Invoked j) (set_queue rest q))
    | [] => q
    end
  else finally_ q.

Definition process (q : t) : t :=
  if (negb (started q) || running q)%bool then q
  else loop (set_running true q).

Definition start (q : t) : t :=
  if started q then q else process (set_started true q).

Definition stop (q : t) : t := set_started false q.

Definition enqueue (j : QueueJob.t) (q : t) : t :=
  let q := record (Enqueued j) (set_queue (queue q ++ [j]) q) in
  if started q then process q else q.

Definition size (q : t) : nat := List.length (queue q).

(** The promise awaited by the [k]-th suspended activation settles: the
    activation resumes behind the [await], logs a rejection, and goes
    round the loop. *)
Definition settle (k : nat) (ok : bool) (q : t) : t :=
  match awaiting q !! k with
  | None => q
  | Some j =>
      let q := record (Settled j ok) (set_awaiting (delete k (awaiting q)) q) in
      let q := if ok then q else record (WorkerFailed j) q in
      loop q
  end.

(** A callback given to [setImmediate] runs. *)
Definition runImmediate (q : t) : t :=
  match immediates q with
  | O => q
  | S n => process (set_immediates n q)
  end.

(** The jobs a log reports as enqueued, and as handed to the worker. *)
Definition enqueuedJobs (tr : list QueueEvent) : list QueueJob.t :=
  omap (fun e => match e with Enqueued j => Some j | _ => None end) tr.
Definition invokedJobs (tr : list QueueEvent) : list QueueJob.t :=
  omap (fun e => match e with Invoked j => Some j | _ => None end) tr.

(** Reading a log from the left with the job in flight, if any: [None]
    when a worker is invoked while another is in flight, or a promise
    settles that is not the one in flight. *)
Fixpoint serial (inFlight : option QueueJob.t) (tr : list QueueEvent)
    : option (option QueueJob.t) :=
  match tr with
  | [] => Some inFlight
  | Invoked j :: tr =>
      match inFlight with
      | None => serial (Some j) tr
      | Some _ => None
      end
  | Settled j _ :: tr =>
      match inFlight with
      | Some j' => if bool_decide (j = j') then serial None tr else None
      | None => None
      end
  | _ :: tr => serial inFlight tr
  end.

(** What can happen to a queue, and a sequence of such things handled
    from the left. *)
Inductive Op :=
| OpStart
| OpStop
| OpEnqueue (j : QueueJob.t)
| OpSettle (k : nat) (ok : bool)
| OpImmediate.

Definition apply (op : Op) (q : t) : t :=
  match op with
  | OpStart => start q
  | OpStop => stop q
  | OpEnqueue j => enqueue j q
  | OpSettle k ok => settle k ok q
  | OpImmediate => runImmediate q
  end.

Definition applyAll (ops : list Op) (q : t) : t :=
  fold_left (fun q op => apply op q) ops q.

(** The queue between two steps, without its last field. *)
Record Ok0 (q : t) : Prop := {
  (** at most one drain cycle is suspended at its [await]: at most one
      invocation of the worker is in flight *)
  ok_single : (List.length (awaiting q) <= 1)%nat;
  (** [running] is set exactly while a drain cycle is active *)
  ok_running : running q = bool_decide (awaiting q <> []);
  (** no drain cycle was ever handed to [setImmediate] *)
  ok_immediates : immediates q = 0%nat;
  (** the jobs handed to the worker, then the jobs still queued, are the
      jobs enqueued, in the order of their enqueuing *)
  ok_fifo : invokedJobs (trace q) ++ queue q = enqueuedJobs (trace q);
  (** a worker is invoked only when none is in flight, and the one in
      flight is the one the drain cycle awaits *)
  ok_serial : serial None (trace q) = Some (head (awaiting q));
}.

Record Ok (q : t) : Prop := {
  ok_base : Ok0 q;
  (** a started queue is idle only when it is empty *)
  ok_idle : started q = true -> awaiting q = [] -> queue q = [];
}.


End InMemoryJobQueue.

(** ** The service as a whole

    The process is single-threaded: handlers, timers and the drain loop of
    the queue interleave at their [await]s.  The model lets one thing
    happen at a time, in any order, and runs an invocation of the importer
    in one step, at the moment its promise settles: between the call of the
    worker and that moment nothing else writes what the importer reads.
    An invocation that kills the process leaves the stores as they were at
    that moment, and nothing happens after it. *)

Record System := {
  world : State;
  jobQueue : InMemoryJobQueue.t;
  (** the process runs; it does not once an error nobody handles has
      killed it *)
  alive : bool;
}.

Inductive Input :=
| Upload (originalname filePath : string) (rows : list RawRow) (res : nat)
    (* POST /upload: multer stored the file, [uploadCsv] runs *)
| Stream (jobId : string) (res : nat)      (* GET /:id/stream *)
| Close (res : nat)                        (* the observer disconnects *)
| Ping (res : nat)                         (* a keep-alive interval fires *)
| QueueStart                               (* [jobQueue.start()] *)
| QueueStop                                (* [jobQueue.stop()] *)
| Immediate                                (* a [setImmediate] callback runs *)
| WorkerSettles (k : nat).                 (* the importer awaited by the k-th
                                              suspended drain cycle finishes,
                                              or kills the process *)

Definition noJob : JobDoc :=
  {| _id := ""; filename := ""; status := pending; totalRows := 0;
     processedRows := 0; successCount := 0; failedCount := 0; errors := [];
     lastError := None; createdAt := 0; startedAt := None;
     completedAt := None |}.

Definition noProgress : CsvProgress.t :=
  {| CsvProgress.totalRows := 0; CsvProgress.processedRows := 0;
     CsvProgress.successCount := 0; CsvProgress.failedCount := 0;
     CsvProgress.errors := []; CsvProgress.lastError := None |}.

(** The state at boot: empty stores, no file, no observer. *)
Definition emptyWorld : State :=
  {| jobStore := ∅; customerStore := []; files := ∅; clientsByJobId := ∅;
     responses := ∅; pingTimers := []; closeHandlers := ∅; job := noJob;
     progress := noProgress; currentRow := 0; clock := 0; saveCalls := 0;
     createCalls := 0; streamsOpened := 0; history := [] |}.

Definition initial : System :=
  {| world := emptyWorld; jobQueue := InMemoryJobQueue.new; alive := true |}.

Section System.

Variable E : Env.

(** [uploadCsv] of [jobs.controller.ts]; a rejection of
    [createPendingJob] reaches the error middleware. *)
Definition uploadCsv (file : option (string * string)) (res : nat)
    (sys : System) : System :=
  match file with
  | None =>
      {| world := (respondJson res 400
                     (DMessage "CSV file is required (field name: file)")
                     (world sys)).2;
         jobQueue := jobQueue sys; alive := alive sys |}
  | Some (originalname, filePath) =>
      if bool_decide (filePath = "") then
        {| world := (respondJson res 500 (DMessage "Uploaded file path missing")
                       (world sys)).2;
           jobQueue := jobQueue sys; alive := alive sys |}
      else
        match createPendingJob E originalname (world sys) with
        | (Ok doc, w) =>
            {| world := (respondJson res 201 (DJobId (_id doc)) w).2;
               jobQueue :=
                 InMemoryJobQueue.enqueue
                   {| QueueJob.jobId := _id doc; QueueJob.filePath := filePath |}
                   (jobQueue sys);
               alive := alive sys |}
        | (Throw err, w) =>
            {| world := (errorMiddleware err res w).2; jobQueue := jobQueue sys;
               alive := alive sys |}
        | (Crash, w) =>
            {| world := w; jobQueue := jobQueue sys; alive := false |}
        end
  end.

(** The worker of [src/queue/queue.ts]. *)
Definition worker (j : QueueJob.t) : M unit :=
  processCsvJob E (QueueJob.jobId j) (QueueJob.filePath j).

Definition isOk {A} (r : Res A) : bool :=
  match r with Ok _ => true | _ => false end.

(** The promise of an invocation settles unless the process dies. *)
Definition settles {A} (r : Res A) : bool :=
  match r with Crash => false | _ => true end.

(** What the running process does. *)
Definition handle (i : Input) (sys : System) : System :=
  match i with
  | Upload originalname filePath rows res =>
      uploadCsv (Some (originalname, filePath)) res
        {| world := set_files (<[filePath := rows]> (files (world sys))) (world sys);
           jobQueue := jobQueue sys; alive := alive sys |}
  | Stream jobId res =>
      {| world := (streamJob E jobId res (world sys)).2; jobQueue := jobQueue sys;
         alive := alive sys |}
  | Close res =>
      {| world := (onClose res (world sys)).2; jobQueue := jobQueue sys;
         alive := alive sys |}
  | Ping res =>
      {| world := (ping E res (world sys)).2; jobQueue := jobQueue sys;
         alive := alive sys |}
  | QueueStart =>
      {| world := world sys; jobQueue := InMemoryJobQueue.start (jobQueue sys);
         alive := alive sys |}
  | QueueStop =>
      {| world := world sys; jobQueue := InMemoryJobQueue.stop (jobQueue sys);
         alive := alive sys |}
  | Immediate =>
      {| world := world sys;
         jobQueue := InMemoryJobQueue.runImmediate (jobQueue sys);
         alive := alive sys |}
  | WorkerSettles k =>
      match InMemoryJobQueue.awaiting (jobQueue sys) !! k with
      | None => sys
      | Some j =>
          let out := worker j (world sys) in
          if settles out.1 then
            {| world := out.2;
               jobQueue := InMemoryJobQueue.settle k (isOk out.1) (jobQueue sys);
               alive := alive sys |}
          else
            {| world := out.2; jobQueue := jobQueue sys; alive := false |}
      end
  end.

(** A dead process does nothing. *)
Definition step (i : Input) (sys : System) : System :=
  if alive sys then handle i sys else sys.

(** The inputs are handled from the left. *)
Definition serve (inputs : list Input) (sys : System) : System :=
  fold_left (fun sys i => step i sys) inputs sys.

End System.

(** ** The properties of a job document and of a progress object *)

(** [processedRows = successCount + failedCount] *)
Definition countersAgree (d : JobDoc) : Prop :=
  processedRows d = successCount d + failedCount d.

(** What every save point of a job document satisfies. *)
Record DocOk (d : JobDoc) : Prop := {
  doc_agree : countersAgree d;
  doc_success : 0 <= successCount d;
  doc_failed : 0 <= failedCount d;
  doc_bounded : processedRows d <= totalRows d;
  doc_cap : Z.of_nat (List.length (errors d)) <= DEFAULT_MAX_ERRORS;
  doc_completed : status d = completed -> processedRows d = totalRows d;
}.

(** The same for the progress object of [processFile], under the cap
    [cap] on its error list. *)
Record ProgressOk (cap : Z) (p : CsvProgress.t) : Prop := {
  prog_agree :
    CsvProgress.processedRows p
    = CsvProgress.successCount p + CsvProgress.failedCount p;
  prog_success : 0 <= CsvProgress.successCount p;
  prog_failed : 0 <= CsvProgress.failedCount p;
  prog_cap : Z.of_nat (List.length (CsvProgress.errors p)) <= Z.max 0 cap;
}.

Definition SavedOk (e : Effect) : Prop :=
  match e with Saved d => DocOk d | _ => True end.

Definition phoneOk (c : CustomerDoc) : Prop := c_phone c <> Some "".

(** The state is sound: the documents of the Job Store and all save
    points so far are as they should be, and no customer has an empty
    phone. *)
Record Sound (s : State) : Prop := {
  sound_store : forall k d, jobStore s !! k = Some d -> DocOk d;
  sound_history : Forall SavedOk (history s);
  sound_phones : Forall phoneOk (customerStore s);
}.

(** While [processFile] runs for [processCsvJob]. *)
Record Running (s : State) : Prop := {
  running_sound : Sound s;
  running_job : DocOk (job s);
  running_status : status (job s) = processing;
}.

(** The callback of [processFile] cannot reach the [progress] object and
    the row counter, which are local to [processFile]. *)
Definition keepsLocals (options : ProcessFileOptions.t) : Prop :=
  forall f p s,
    ProcessFileOptions.onProgress options = Some f ->
    progress (f p s).2 = progress s /\ currentRow (f p s).2 = currentRow s.

(** What the body of the loop does to a row before it reports progress:
    both branches of [rowBody] end with [emitProgress()]. *)
Definition rowOutcome (E : Env) (options : ProcessFileOptions.t) (raw : RawRow)
    : M unit :=
  match safeParse E (normalizeRow raw) with
  | inr issues =>
      run updateProgress CsvProgress.addFailed;
      run updateProgress CsvProgress.addProcessed;
      run updateProgress (CsvProgress.withLastError (Some (Js.join ", " issues)));
      run pushError (maxErrors options) (Js.join ", " issues) raw;
      nextRow
  | inl data =>
      run try_catch
        (run Customer_create E
               (CustomerRow.name data) (CustomerRow.email data)
               (if bool_decide (CustomerRow.phone data = "") then None
                else Some (CustomerRow.phone data))
               (CustomerRow.company data)
               (ProcessFileOptions.jobId options);
         updateProgress CsvProgress.addSuccess)
        (fun err =>
           run updateProgress CsvProgress.addFailed;
           run updateProgress
                 (CsvProgress.withLastError (Some (insertFailureMessage err)));
           pushError (maxErrors options) (insertFailureMessage err)
                     (CustomerRow.toRecord data));
      run updateProgress CsvProgress.addProcessed;
      nextRow
  end.

(** The arguments [rowBody] gives to [Customer.create] for a valid row. *)
Definition createArgs (E : Env) (options : ProcessFileOptions.t)
    (data : CustomerRow.t) : M unit :=
  Customer_create E
    (CustomerRow.name data) (CustomerRow.email data)
    (if bool_decide (CustomerRow.phone data = "") then None
     else Some (CustomerRow.phone data))
    (CustomerRow.company data)
    (ProcessFileOptions.jobId options).

(** The error record of a row. *)
Definition errorRecord (n : Z) (messageText : string) (r : RawRow) : JobError :=
  {| rowNumber := n; message := messageText; row := Some r |}.

(** The customer [Customer.create] inserts for these arguments at time
    [now]. *)
Definition customerOf (name email : string) (phone : option string)
    (company jobId : string) (now : Z) : CustomerDoc :=
  {| c_name := Js.trim name; c_email := Js.toLowerCase (Js.trim email);
     c_phone := Js.trim <$> phone; c_company := Js.trim company;
     c_jobId := jobId; c_createdAt := now |}.

(** The changes an insert may make. *)
Definition afterCreate (calls : nat) (now : Z) (inserted : list CustomerDoc)
    (s : State) : State :=
  set_history (history s ++ map Inserted inserted)
    (set_customerStore (customerStore s ++ inserted)
       (set_clock now (set_createCalls calls s))).

(** A computation that writes neither store and logs nothing: what the
    handlers of the observers are. *)
Definition quiet {A} (m : M A) : Prop :=
  forall s,
    jobStore (m s).2 = jobStore s /\ customerStore (m s).2 = customerStore s
    /\ history (m s).2 = history s /\ files (m s).2 = files s.

(** What holds of every effect logged by the service: a save point
    satisfies the properties of a job document. *)
Definition savePoints (P : JobDoc -> Prop) (h : list Effect) : Prop :=
  Forall (fun e => match e with Saved d => P d | _ => True end) h.

(** The progress object after a failed row with error record [e]. *)
Definition rowFailed (cap : Z) (e : JobError) (p : CsvProgress.t) : CsvProgress.t :=
  CsvProgress.addProcessed
    (CsvProgress.push cap e
       (CsvProgress.withLastError (Some (message e)) (CsvProgress.addFailed p))).

(** The progress object after an inserted row. *)
Definition rowSucceeded (p : CsvProgress.t) : CsvProgress.t :=
  CsvProgress.addProcessed (CsvProgress.addSuccess p).

(** C2 as amended: a completed job accounted for every row, a failed job
    for no more than there are. *)
Definition accounted (d : JobDoc) : Prop :=
  match status d with
  | completed => processedRows d = totalRows d
  | failed => processedRows d <= totalRows d
  | _ => True
  end.

(** The error list of a document is within the default cap. *)
Definition withinCap (d : JobDoc) : Prop :=
  Z.of_nat (List.length (errors d)) <= DEFAULT_MAX_ERRORS.

(** The state in which the [Response] object [res] is [r]. *)
Definition touch (res : nat) (r : Response.t) (s : State) : State :=
  set_responses (<[res := r]> (responses s)) s.

(** The chunks [streamJob] writes for a job that is over. *)
Definition terminalChunks (jobId : string) (j : JobDoc) : list Chunk :=
  [CRetry; CEvent "progress"; CData (DProgress (toProgressPayload jobId j));
   CEvent "done"; CData (DDone jobId (status j))].


(** A computation that leaves [f] of the state as it is. *)
Definition keeps {A X} (f : State -> X) (m : M A) : Prop :=
  forall s, f (m s).2 = f s.

(** A computation after which no fewer writes to the Job Store were made
    than before. *)
Definition grows {A} (m : M A) : Prop :=
  forall s, (saveCalls s <= saveCalls (m s).2)%nat.


(** ** Concrete inputs used by the examples *)

Definition c9_job : JobDoc :=
  {| _id := "j1"; filename := "q3-report.v2.csv"; status := completed;
     totalRows := 0; processedRows := 0; successCount := 0; failedCount := 0;
     errors := []; lastError := None; createdAt := 0; startedAt := None;
     completedAt := None |}.

Module Scenario.

(** An environment in which nothing fails.  The tests of zod and of
    Mongoose are stood in for by simple ones. *)
Definition calm : Env :=
  {| isEmail := Js.includesChar "@";
     isValidObjectId := fun _ => true;
     newObjectId := fun n => "job" +:+ pretty n;
     saveFailure := fun _ => None;
     createFailure := fun _ => None;
     streamFailure := fun _ => None;
     writeFailure := fun _ => false |}.

(** The Job Store rejects its [n]-th write, and no other. *)
Definition saveRejected (n : nat) : Env :=
  {| isEmail := isEmail calm;
     isValidObjectId := isValidObjectId calm;
     newObjectId := newObjectId calm;
     saveFailure := fun k =>
       if (k =? n)%nat then Some (Exn.error "connection lost") else None;
     createFailure := fun _ => None;
     streamFailure := fun _ => None;
     writeFailure := fun _ => false |}.


Definition jobA : QueueJob.t :=
  {| QueueJob.jobId := "job0"; QueueJob.filePath := "/uploads/a.csv" |}.
Definition jobB : QueueJob.t :=
  {| QueueJob.jobId := "job1"; QueueJob.filePath := "/uploads/b.csv" |}.
Definition jobC : QueueJob.t :=
  {| QueueJob.jobId := "job2"; QueueJob.filePath := "/uploads/c.csv" |}.

Definition row (name email phone company : string) : RawRow :=
  <["name" := name]> (<["email" := email]>
    (<["phone" := phone]> (<["company" := company]> ∅))).

Definition ann : RawRow := row "Ann" "Ann@x.io " " 123 " "Acme".
Definition noName : RawRow := row "" "bob@x.io" "" "Acme".
Definition annAgain : RawRow := row "Cy" "ann@x.io" "" "Acme".
Definition di : RawRow := row "Di" "di@x.io" "  " "Co".

(** A file of four rows: a good one, one without a name, one with the
    e-mail of the first, and a good one without a phone. *)
Definition fourRows : list RawRow := [ann; noName; annAgain; di].

(** More invalid rows than the error list retains. *)
Definition manyBadRows : list RawRow := replicate 51 noName.

(** What a job is in the Job Store: status and counters. *)
Definition summary (d : JobDoc) : JobStatus * Z * Z * Z * Z * nat :=
  (status d, totalRows d, processedRows d, successCount d, failedCount d,
   List.length (errors d)).

Definition stored (sys : System) (jobId : string)
    : option (JobStatus * Z * Z * Z * Z * nat) :=
  summary <$> jobStore (world sys) !! jobId.


(** Three jobs are enqueued while the first is imported; the first
    import is rejected, the other two are fulfilled. *)
Definition threeJobs : InMemoryJobQueue.t :=
  InMemoryJobQueue.applyAll
    [InMemoryJobQueue.OpStart; InMemoryJobQueue.OpEnqueue jobA;
     InMemoryJobQueue.OpEnqueue jobB; InMemoryJobQueue.OpEnqueue jobC;
     InMemoryJobQueue.OpSettle 0 false; InMemoryJobQueue.OpSettle 0 true;
     InMemoryJobQueue.OpSettle 0 true]
    InMemoryJobQueue.new.

(** One file of four rows, imported without a failure. *)
Definition imported : System :=
  serve calm
    [QueueStart; Upload "a.csv" "/uploads/a.csv" fourRows 0; WorkerSettles 0]
    initial.



(** The state of the importer of a file before a row whose e-mail is
    already in the Record Store. *)
Definition beforeDuplicate : State :=
  set_currentRow 3 (world imported).


End Scenario.
(* ================================================================== *)
(** * Theorems *)

(* ================================================================== *)

(** ** The error-report filename *)

Section ReportFilename.

Implicit Types (l : list ascii) (cls : ascii -> bool).

Lemma splitLastDot_None l :
  Spec.splitLastDot l = None <->
  forallb (fun c => negb (Js.isChar "." c)) l = true.
Proof.
  induction l as [|c l IH]; simpl; [tauto|].
  destruct (Spec.splitLastDot l) as [[pre ext]|].
  - split; [discriminate|].
    intros H. apply andb_prop in H as [_ H]. apply IH in H. discriminate.
  - destruct (Js.isChar "." c); simpl.
    + split; discriminate.
    + split; intros _; [apply IH|]; reflexivity.
Qed.

(** The regular expression of [sanitizeFilename] removes exactly the
    final extension. *)
Lemma replaceExtension_strips l :
  Js.replaceExtension l = Spec.stripFinalExtension l.
Proof.
  induction l as [|c l IH]; [reflexivity|].
  unfold Spec.stripFinalExtension in *. simpl.
  destruct (Js.isChar "." c) eqn:Hc; simpl.
  - unfold Js.nonDotsToEnd.
    destruct l as [|d l]; [reflexivity|].
    rewrite bool_decide_eq_false_2 by discriminate.
    cbn [negb andb].
    destruct (forallb _ (d :: l)) eqn:Hd.
    + apply splitLastDot_None in Hd. rewrite Hd. reflexivity.
    + rewrite IH.
      destruct (Spec.splitLastDot (d :: l)) as [[pre ext]|] eqn:Hs.
      * destruct ext; reflexivity.
      * apply splitLastDot_None in Hs. congruence.
  - rewrite IH.
    destruct (Spec.splitLastDot l) as [[pre ext]|]; [|reflexivity].
    destruct ext; reflexivity.
Qed.

Lemma replaceClassRuns_runs cls l :
  Js.replaceClassRuns cls false l = Spec.collapseRuns cls l /\
  Js.replaceClassRuns cls true l = Spec.collapseTail cls l.
Proof.
  unfold Spec.collapseTail, Spec.collapseRuns.
  induction l as [|c l [IH0 IH1]]; [split; reflexivity|].
  cbn [Js.replaceClassRuns Spec.runs].
  destruct (cls c) eqn:Hc.
  - rewrite IH1.
    destruct (Spec.runs cls l) as [|[[] r] more]; split; reflexivity.
  - rewrite IH0.
    destruct (Spec.runs cls l) as [|[[] r] more]; split; reflexivity.
Qed.

(** The global replacement of [sanitizeFilename] turns every maximal run
    of the class into one underscore. *)
Lemma replaceClassRuns_collapses cls l :
  Js.replaceClassRuns cls false l = Spec.collapseRuns cls l.
Proof. apply replaceClassRuns_runs. Qed.

Lemma runs_ext cls1 cls2 l :
  (forall c, cls1 c = cls2 c) -> Spec.runs cls1 l = Spec.runs cls2 l.
Proof.
  intros E. induction l as [|c l IH]; [reflexivity|].
  simpl. rewrite IH, E. reflexivity.
Qed.

Lemma notNameChar_unsafeChar c : Js.notNameChar c = Spec.unsafeChar c.
Proof.
  unfold Js.notNameChar, Spec.unsafeChar, Spec.nonWord.
  destruct (Js.isWordChar c), (Js.isChar "." c), (Js.isChar "-" c); reflexivity.
Qed.

(** [Spec.runs] cuts a string into runs: nothing is lost, every run is
    non-empty and of one kind, and neighbouring runs are of different
    kinds, so each run is maximal. *)
Lemma runs_concat cls l : List.concat (map snd (Spec.runs cls l)) = l.
Proof.
  induction l as [|c l IH]; [reflexivity|]. simpl.
  destruct (Spec.runs cls l) as [|[b r] more]; simpl in *.
  - congruence.
  - destruct (Bool.eqb b (cls c)); simpl; congruence.
Qed.

Lemma runs_uniform cls l :
  Forall (fun br : bool * list ascii =>
            br.2 <> [] /\ Forall (fun c => cls c = br.1) br.2)
         (Spec.runs cls l).
Proof.
  induction l as [|c l IH]; simpl; [constructor|].
  destruct (Spec.runs cls l) as [|[b r] more].
  - repeat constructor. discriminate.
  - destruct (Bool.eqb b (cls c)) eqn:E.
    + apply Bool.eqb_prop in E. subst b.
      inversion IH as [|? ? [_ Hr] Hmore]; subst.
      constructor; [|assumption].
      split; [discriminate|]. constructor; [reflexivity|assumption].
    + constructor; [|assumption].
      split; [discriminate|]. constructor; [reflexivity|constructor].
Qed.

Lemma runs_maximal cls l : Spec.alternating (map fst (Spec.runs cls l)).
Proof.
  induction l as [|c l IH]; simpl; [exact I|].
  destruct (Spec.runs cls l) as [|[b r] more]; [exact I|].
  destruct (Bool.eqb b (cls c)) eqn:E.
  - apply Bool.eqb_prop in E. subst b. exact IH.
  - apply Bool.eqb_false_iff in E. simpl. split; [congruence|exact IH].
Qed.

Lemma sanitizeFilename_spec (name : string) :
  sanitizeFilename name =
  let base := Js.str (Spec.collapseRuns Spec.unsafeChar
                        (Spec.stripFinalExtension (Js.chars name))) in
  if decide (base = "") then "job" else base.
Proof.
  unfold sanitizeFilename.
  rewrite replaceExtension_strips, replaceClassRuns_collapses.
  unfold Spec.collapseRuns.
  rewrite (runs_ext _ _ _ notNameChar_unsafeChar). reflexivity.
Qed.

End ReportFilename.

Example sanitize_keeps_dot_and_hyphen :
  sanitizeFilename "my report (v2).final.csv" = "my_report_v2_.final".
Proof. vm_compute. reflexivity. Qed.

Example sanitize_only_extension : sanitizeFilename ".csv" = "job".
Proof. vm_compute. reflexivity. Qed.

Example sanitize_trailing_dot : sanitizeFilename "abc." = "abc.".
Proof. vm_compute. reflexivity. Qed.

(** C9, as stated, fails: a hyphen and an inner dot are non-word
    characters, yet the report of a job named [q3-report.v2.csv] is called
    [q3-report.v2_errors.csv], where the claim asks for
    [q3_report_v2_errors.csv]. *)
Lemma C9_counterexample :
  report_filename <$> buildJobErrorReport "j1" {[ "j1" := c9_job ]}
    = Some "q3-report.v2_errors.csv" /\
  Spec.claimedReportFilename (filename c9_job) = "q3_report_v2_errors.csv" /\
  report_filename <$> buildJobErrorReport "j1" {[ "j1" := c9_job ]}
    <> Some (Spec.claimedReportFilename (filename c9_job)).
Proof. vm_compute. repeat split; discriminate. Qed.

(** C9 (amended): for every job of the Job Store, the error-report filename
    is the job's source filename with its final extension stripped and every
    maximal run of characters other than word characters, dots and hyphens
    collapsed to a single underscore, followed by [_errors.csv]; an empty
    base name falls back to [job].  For an identifier without a job there is
    no report. *)
Theorem C9_report_filename (jobId : string) (jobStore : gmap string JobDoc) :
  report_filename <$> buildJobErrorReport jobId jobStore
  = (fun job => Spec.amendedReportFilename (filename job)) <$> jobStore !! jobId.
Proof.
  unfold buildJobErrorReport.
  destruct (jobStore !! jobId) as [job|]; [|reflexivity].
  cbn [fmap option_fmap option_map report_filename]. f_equal.
  unfold Spec.amendedReportFilename, Spec.reportName.
  destruct (decide (filename job = "")) as [E|E].
  - rewrite E. vm_compute. reflexivity.
  - rewrite sanitizeFilename_spec. reflexivity.
Qed.

(** ** [trim] *)

Section Trim.

Implicit Types (l : list ascii) (c : ascii).

Lemma trimStart_clean l : Js.startsClean (Js.trimStart l).
Proof.
  induction l as [|c l IH]; simpl; [exact I|].
  destruct (Js.isWhiteSpace c) eqn:Hc; [exact IH|exact Hc].
Qed.

Lemma trimStart_fixed l : Js.startsClean l -> Js.trimStart l = l.
Proof. destruct l as [|c l]; simpl; [reflexivity|]. by intros ->. Qed.

(** Trimming the start of a list that ends with a clean character leaves
    that character in place. *)
Lemma trimStart_snoc l c :
  Js.isWhiteSpace c = false ->
  exists u, Js.trimStart (l ++ [c]) = u ++ [c].
Proof.
  intros Hc. induction l as [|d l [u IH]]; simpl.
  - rewrite Hc. by exists [].
  - destruct (Js.isWhiteSpace d); [by exists u|by exists (d :: l)].
Qed.

Lemma trimEnd_keeps_start l : Js.startsClean l -> Js.startsClean (Js.trimEnd l).
Proof.
  unfold Js.trimEnd. destruct l as [|c l]; [intros _; exact I|].
  simpl. intros Hc.
  destruct (trimStart_snoc (rev l) c Hc) as [u ->].
  rewrite rev_app_distr. simpl. exact Hc.
Qed.

Lemma trimEnd_fixed l : Js.startsClean (rev l) -> Js.trimEnd l = l.
Proof.
  intros H. unfold Js.trimEnd. rewrite trimStart_fixed by exact H.
  apply rev_involutive.
Qed.

Lemma trimEnd_clean l : Js.startsClean (rev (Js.trimEnd l)).
Proof. unfold Js.trimEnd. rewrite rev_involutive. apply trimStart_clean. Qed.

Lemma chars_str l : Js.chars (Js.str l) = l.
Proof. apply list_ascii_of_string_of_list_ascii. Qed.

(** Trimming twice is trimming once. *)
Lemma trim_idempotent (s : string) : Js.trim (Js.trim s) = Js.trim s.
Proof.
  unfold Js.trim. rewrite chars_str. f_equal.
  set (l := Js.trimEnd (Js.trimStart (Js.chars s))).
  assert (Hs : Js.startsClean l)
    by (apply trimEnd_keeps_start, trimStart_clean).
  assert (He : Js.startsClean (rev l)) by apply trimEnd_clean.
  rewrite (trimStart_fixed l Hs). by apply trimEnd_fixed.
Qed.

Lemma lowerChar_whiteSpace c :
  Js.isWhiteSpace (Js.lowerChar c) = Js.isWhiteSpace c.
Proof. destruct c as [[] [] [] [] [] [] [] []]; reflexivity. Qed.

Lemma trimStart_lower l :
  Js.trimStart (map Js.lowerChar l) = map Js.lowerChar (Js.trimStart l).
Proof.
  induction l as [|c l IH]; [reflexivity|].
  cbn [map Js.trimStart]. rewrite lowerChar_whiteSpace.
  destruct (Js.isWhiteSpace c); [exact IH|reflexivity].
Qed.

Lemma trimEnd_lower l :
  Js.trimEnd (map Js.lowerChar l) = map Js.lowerChar (Js.trimEnd l).
Proof.
  unfold Js.trimEnd. by rewrite <- map_rev, trimStart_lower, map_rev.
Qed.

(** Trimming and lowering commute. *)
Lemma trim_toLowerCase (s : string) :
  Js.trim (Js.toLowerCase s) = Js.toLowerCase (Js.trim s).
Proof.
  unfold Js.trim, Js.toLowerCase. rewrite !chars_str. f_equal.
  by rewrite trimStart_lower, trimEnd_lower.
Qed.

Example trim_both_ends : Js.trim "  a b  " = "a b".
Proof. vm_compute. reflexivity. Qed.

End Trim.

(** ** What each operation leaves alone *)

Section Frames.

Variable E : Env.

Lemma set_responses_id s : set_responses (responses s) s = s.
Proof. destruct s; reflexivity. Qed.

(** Writing to a connection changes the [Response] objects only, and
    never throws through [writeSafe]. *)
Lemma writeSafe_frame res chunk s :
  exists b rs, writeSafe E res chunk s = (Ok b, set_responses rs s).
Proof.
  unfold writeSafe, try_catch, bind, res_write, onResponse, modify, throw, ret.
  destruct (writeFailure E res); simpl.
  - exists false, (responses s). by rewrite set_responses_id.
  - eexists true, _. reflexivity.
Qed.

Lemma sendEvent_frame res event data s :
  exists rs, sendEvent E res event data s = (Ok tt, set_responses rs s).
Proof.
  unfold sendEvent, bind.
  destruct (writeSafe_frame res (CEvent event) s) as (b1 & rs1 & ->).
  destruct (writeSafe_frame res (CData data) (set_responses rs1 s)) as (b2 & rs2 & ->).
  exists rs2. reflexivity.
Qed.

Lemma forOf_frame {A} (body : A -> M unit) (xs : list A) :
  (forall x s, exists rs, body x s = (Ok tt, set_responses rs s)) ->
  forall s, exists rs, forOf xs body s = (Ok tt, set_responses rs s).
Proof.
  intros Hbody. induction xs as [|x xs IH]; intros s; simpl.
  - exists (responses s). unfold ret. by rewrite set_responses_id.
  - unfold bind. destruct (Hbody x s) as (rs1 & ->).
    destruct (IH (set_responses rs1 s)) as (rs2 & ->).
    exists rs2. reflexivity.
Qed.

(** [broadcast] writes to connections and is logged; it never throws. *)
Lemma broadcast_frame jobId event data s :
  exists rs,
    broadcast E jobId event data s
    = (Ok tt, set_responses rs
                (set_history (history s ++ [Published jobId event data]) s)).
Proof.
  unfold broadcast, bind, log, modify, gets. simpl.
  destruct (clientsByJobId s !! jobId) as [set|].
  - apply forOf_frame. intros res s'. unfold bind.
    destruct (writeSafe_frame res (CEvent event) s') as (b1 & rs1 & ->).
    destruct b1; simpl.
    + destruct (writeSafe_frame res (CData data) (set_responses rs1 s'))
        as (b2 & rs2 & ->).
      exists rs2. reflexivity.
    + exists rs1. reflexivity.
  - eexists. unfold ret. by rewrite set_responses_id.
Qed.

(** [broadcastAndClose] moreover drops the entry of the job from the
    registry. *)
Lemma broadcastAndClose_frame jobId event data s :
  exists rs,
    broadcastAndClose E jobId event data s
    = (Ok tt,
       set_clientsByJobId (delete jobId (clientsByJobId s))
         (set_responses rs
            (set_history (history s ++ [PublishedAndClosed jobId event data]) s))).
Proof.
  unfold broadcastAndClose, bind, log, modify, gets. simpl.
  destruct (clientsByJobId s !! jobId) as [set|] eqn:Hset.
  - match goal with |- context [forOf set ?b ?s'] =>
      destruct (forOf_frame b set) with (s := s') as (rs & ->) end.
    + intros res s'. unfold bind.
      destruct (sendEvent_frame res event data s') as (rs1 & ->).
      unfold try_catch, res_end, onResponse, modify. simpl.
      eexists. reflexivity.
    + exists rs. reflexivity.
  - exists (responses s). unfold ret. f_equal.
    rewrite delete_id by done. destruct s; reflexivity.
Qed.

End Frames.

(** ** The stores *)

Section Stores.

Variable E : Env.

Lemma afterCreate_id s : afterCreate (createCalls s) (clock s) [] s = s.
Proof. unfold afterCreate. simpl. rewrite !app_nil_r. destruct s; reflexivity. Qed.

(** [Customer.create] either throws and inserts nothing, or inserts the
    one customer it was given. *)
Lemma Customer_create_run name email phone company jobId s :
  (exists e calls,
      Customer_create E name email phone company jobId s
      = (Throw e, afterCreate calls (clock s) [] s))
  \/ Customer_create E name email phone company jobId s
     = (Ok tt, afterCreate (S (createCalls s)) (clock s + 1)
                 [customerOf name email phone company jobId (clock s)] s).
Proof.
  unfold Customer_create.
  destruct (_ || _ || _)%bool.
  - left. exists Exn.validationError, (createCalls s).
    unfold throw. by rewrite afterCreate_id.
  - unfold bind, gets, modify. simpl.
    destruct (createFailure E (createCalls s)) as [e|].
    + left. exists e, (S (createCalls s)). unfold throw, afterCreate. simpl.
      rewrite app_nil_r. f_equal. destruct s; simpl. by rewrite app_nil_r.
    + simpl. destruct (existsb _ _).
      * left. exists Exn.duplicateKey, (S (createCalls s)).
        unfold throw, afterCreate. simpl.
        rewrite app_nil_r. f_equal. destruct s; simpl. by rewrite app_nil_r.
      * right. reflexivity.
Qed.

(** A duplicate e-mail is refused with the code 11000, when the
    validators and the database let the insert reach the index. *)
Lemma Customer_create_duplicate name email phone company jobId s :
  Js.trim name <> "" -> Js.toLowerCase (Js.trim email) <> "" ->
  Js.trim company <> "" ->
  createFailure E (createCalls s) = None ->
  Exists (fun c => c_email c = Js.toLowerCase (Js.trim email)) (customerStore s) ->
  (Customer_create E name email phone company jobId s).1 = Throw Exn.duplicateKey.
Proof.
  intros Hn He Hc Hf Hdup. unfold Customer_create.
  rewrite !bool_decide_eq_false_2 by assumption. simpl.
  unfold bind, gets, modify. simpl. rewrite Hf. simpl.
  replace (existsb _ _) with true; [reflexivity|].
  symmetry. apply existsb_exists.
  apply Exists_exists in Hdup as (c & Hin & Hc').
  exists c. split; [by apply list_elem_of_In|].
  by apply bool_decide_eq_true_2.
Qed.

(** [writeJob] either throws and writes nothing, or stores the
    document and logs the save point. *)
Lemma writeJob_run doc s :
  writeJob E doc s =
  match saveFailure E (saveCalls s) with
  | Some e => (Throw e, set_saveCalls (S (saveCalls s)) s)
  | None =>
      let d := doc (saveCalls s) in
      (Ok d, set_history (history s ++ [Saved (persisted d)])
               (set_jobStore (<[_id d := persisted d]> (jobStore s))
                  (set_saveCalls (S (saveCalls s)) s)))
  end.
Proof.
  unfold writeJob, bind, gets, modify, log, throw, ret, modify. simpl.
  destruct (saveFailure E (saveCalls s)); reflexivity.
Qed.

Lemma job_save_run s :
  job_save E s =
  match saveFailure E (saveCalls s) with
  | Some e => (Throw e, set_saveCalls (S (saveCalls s)) s)
  | None =>
      (Ok tt, set_history (history s ++ [Saved (persisted (job s))])
                (set_jobStore (<[_id (job s) := persisted (job s)]> (jobStore s))
                   (set_saveCalls (S (saveCalls s)) s)))
  end.
Proof.
  unfold job_save, bind, gets. simpl. rewrite writeJob_run.
  destruct (saveFailure E (saveCalls s)); reflexivity.
Qed.

(** The state after [persistProgress]: the hydrated document took the
    counters; when the save succeeds its schema paths are stored and
    logged, and the document as it is held is published. *)
Lemma persistProgress_run p s :
  let j := withProgress p (job s) in
  match saveFailure E (saveCalls s) with
  | Some e =>
      persistProgress E p s
      = (Throw e, set_saveCalls (S (saveCalls s)) (set_job j s))
  | None =>
      exists rs,
        persistProgress E p s
        = (Ok tt,
           set_responses rs
             (set_history
                (history s ++ [Saved (persisted j);
                               Published (_id j) "progress" (DProgress (toProgress j))])
                (set_jobStore (<[_id j := persisted j]> (jobStore s))
                   (set_saveCalls (S (saveCalls s)) (set_job j s)))))
  end.
Proof.
  intros j. unfold persistProgress, bind, setJob, modify, gets. simpl.
  rewrite job_save_run. simpl. fold j.
  destruct (saveFailure E (saveCalls s)); [reflexivity|].
  match goal with |- context [broadcast E ?a ?b ?c ?s'] =>
    destruct (broadcast_frame E a b c s') as (rs & ->) end.
  exists rs. simpl. rewrite <- app_assoc. reflexivity.
Qed.

Lemma persistProgress_locals p s :
  progress (persistProgress E p s).2 = progress s
  /\ currentRow (persistProgress E p s).2 = currentRow s.
Proof.
  pose proof (persistProgress_run p s) as H. simpl in H.
  destruct (saveFailure E (saveCalls s)).
  - rewrite H. split; reflexivity.
  - destruct H as (rs & ->). split; reflexivity.
Qed.

Lemma importOptions_keepsLocals jobId filePath :
  keepsLocals (importOptions E jobId filePath).
Proof.
  intros f p s [= <-]. apply persistProgress_locals.
Qed.

End Stores.

(** ** One row of the file *)

Section Rows.

Variable E : Env.
Variable options : ProcessFileOptions.t.

Lemma bind_assoc_at {A B C} (m : M A) (k : A -> M B) (h : B -> M C) s :
  bind (bind m k) h s = bind m (fun a => bind (k a) h) s.
Proof. unfold bind. destruct (m s) as [[a|e|] s']; reflexivity. Qed.

(** Both branches of [rowBody] settle the outcome of the row first and
    report progress last. *)
Lemma rowBody_outcome raw s :
  rowBody E options raw s
  = (run rowOutcome E options raw; emitProgress options false) s.
Proof.
  unfold rowBody, rowOutcome.
  destruct (safeParse E (normalizeRow raw)) as [data|issues].
  - rewrite !bind_assoc_at. reflexivity.
  - rewrite !bind_assoc_at. reflexivity.
Qed.

Lemma rowOutcome_invalid raw issues s :
  safeParse E (normalizeRow raw) = inr issues ->
  let msg := Js.join ", " issues in
  rowOutcome E options raw s
  = (Ok tt,
     set_currentRow (currentRow s + 1)
       (set_progress
          (CsvProgress.push (maxErrors options)
             (errorRecord (currentRow s) msg raw)
             (CsvProgress.withLastError (Some msg)
                (CsvProgress.addProcessed
                   (CsvProgress.addFailed (progress s))))) s)).
Proof. intros H. unfold rowOutcome. rewrite H. reflexivity. Qed.

Lemma rowOutcome_inserted raw data s s1 :
  safeParse E (normalizeRow raw) = inl data ->
  createArgs E options data s = (Ok tt, s1) ->
  rowOutcome E options raw s
  = (Ok tt,
     set_currentRow (currentRow s1 + 1)
       (set_progress
          (CsvProgress.addProcessed (CsvProgress.addSuccess (progress s1))) s1)).
Proof.
  intros H Hc. unfold rowOutcome. rewrite H.
  unfold createArgs in Hc. unfold bind at 1. unfold try_catch, bind at 1.
  rewrite Hc. reflexivity.
Qed.

Lemma rowOutcome_refused raw data err s s1 :
  safeParse E (normalizeRow raw) = inl data ->
  createArgs E options data s = (Throw err, s1) ->
  let msg := insertFailureMessage err in
  rowOutcome E options raw s
  = (Ok tt,
     set_currentRow (currentRow s1 + 1)
       (set_progress
          (CsvProgress.addProcessed
             (CsvProgress.push (maxErrors options)
                (errorRecord (currentRow s1) msg (CustomerRow.toRecord data))
                (CsvProgress.withLastError (Some msg)
                   (CsvProgress.addFailed (progress s1))))) s1)).
Proof.
  intros H Hc. unfold rowOutcome. rewrite H.
  unfold createArgs in Hc. unfold bind at 1. unfold try_catch, bind at 1.
  rewrite Hc. reflexivity.
Qed.

(** An insert leaves the locals of [processFile] alone. *)
Lemma createArgs_run data s :
  (exists e calls,
      createArgs E options data s = (Throw e, afterCreate calls (clock s) [] s))
  \/ exists c,
      createArgs E options data s
      = (Ok tt, afterCreate (S (createCalls s)) (clock s + 1) [c] s)
      /\ c_phone c
         = Js.trim <$> (if bool_decide (CustomerRow.phone data = "") then None
                        else Some (CustomerRow.phone data))
      /\ c_jobId c = ProcessFileOptions.jobId options.
Proof.
  unfold createArgs.
  match goal with |- context [Customer_create E ?a ?b ?c ?d ?e s] =>
    destruct (Customer_create_run E a b c d e s) as [(e' & calls & ->)| ->] end.
  - left. eauto.
  - right. eexists. split; [reflexivity|]. split; reflexivity.
Qed.

(** The outcome of a row never throws, and never kills the process. *)
Lemma rowOutcome_ok raw s : (rowOutcome E options raw s).1 = Ok tt.
Proof.
  destruct (safeParse E (normalizeRow raw)) as [data|issues] eqn:H.
  - destruct (createArgs_run data s) as [(e & calls & Hc)|(c & Hc & _)].
    + by erewrite rowOutcome_refused.
    + by erewrite rowOutcome_inserted.
  - by erewrite rowOutcome_invalid.
Qed.

Lemma emitProgress_locals force s :
  keepsLocals options ->
  progress (emitProgress options force s).2 = progress s
  /\ currentRow (emitProgress options force s).2 = currentRow s.
Proof.
  intros K. unfold emitProgress.
  destruct (ProcessFileOptions.onProgress options) as [f|] eqn:Hf;
    [|split; reflexivity].
  unfold bind, gets. simpl.
  destruct (_ && _)%bool; [split; reflexivity|].
  by apply K.
Qed.

Lemma rowBody_locals raw s :
  keepsLocals options ->
  progress (rowBody E options raw s).2 = progress (rowOutcome E options raw s).2
  /\ currentRow (rowBody E options raw s).2
     = currentRow (rowOutcome E options raw s).2.
Proof.
  intros K. rewrite rowBody_outcome. unfold bind.
  pose proof (rowOutcome_ok raw s) as Hok.
  destruct (rowOutcome E options raw s) as [r s1]. simpl in *. subst r.
  by apply emitProgress_locals.
Qed.

End Rows.

(** C3: a valid row whose insert fails is recorded with the message
    [email must be unique] when the error is the duplicate-key error (code
    11000) and with [failed to insert customer] otherwise; in both cases
    [failedCount] and [processedRows] grow by one, [successCount] is left
    as it is, the message becomes [lastError], and the error record of the
    row is retained while the list is below its cap. *)
Theorem C3_insert_failure (E : Env) (options : ProcessFileOptions.t)
    (raw : RawRow) (data : CustomerRow.t) (err : Exn.t) (s : State) :
  keepsLocals options ->
  safeParse E (normalizeRow raw) = inl data ->
  (createArgs E options data s).1 = Throw err ->
  let p := progress s in
  let p' := progress (rowBody E options raw s).2 in
  let msg := if bool_decide (Exn.code err = Some 11000)
             then "email must be unique" else "failed to insert customer" in
  CsvProgress.failedCount p' = CsvProgress.failedCount p + 1
  /\ CsvProgress.processedRows p' = CsvProgress.processedRows p + 1
  /\ CsvProgress.successCount p' = CsvProgress.successCount p
  /\ CsvProgress.lastError p' = Some msg
  /\ CsvProgress.errors p'
     = if Z.of_nat (List.length (CsvProgress.errors p)) <? maxErrors options
       then CsvProgress.errors p
              ++ [{| rowNumber := currentRow s; message := msg;
                     row := Some (CustomerRow.toRecord data) |}]
       else CsvProgress.errors p.
Proof.
  intros K Hv Hc p p' msg. subst p'.
  destruct (rowBody_locals E options raw s K) as [-> _].
  destruct (createArgs_run E options data s) as [(e & calls & Hrun)|(c & Hrun & _ & _)];
    rewrite Hrun in Hc; simpl in Hc; [|discriminate].
  injection Hc as ->.
  rewrite (rowOutcome_refused E options raw data err s _ Hv Hrun).
  simpl. repeat split; reflexivity.
Qed.

(** ** The importer keeps the state sound *)

(** [run_of out as H] turns the local definition [out := m s] into a
    variable with the equation [H : out = m s], in which the computation is
    then run step by step. *)
Tactic Notation "run_of" ident(out) "as" ident(H) :=
  pose proof (eq_refl out) as H; unfold out at 2 in H; clearbody out.

Section Importer.

Variable E : Env.

Lemma Sound_update s s' l cs :
  (forall k d, jobStore s' !! k = Some d -> jobStore s !! k = Some d \/ DocOk d) ->
  history s' = history s ++ l -> Forall SavedOk l ->
  customerStore s' = customerStore s ++ cs -> Forall phoneOk cs ->
  Sound s -> Sound s'.
Proof.
  intros Hst Hh Hl Hc Hcs [S1 S2 S3]. split.
  - intros k d Hk. destruct (Hst k d Hk); eauto.
  - rewrite Hh. by apply Forall_app.
  - rewrite Hc. by apply Forall_app.
Qed.

Lemma Sound_same s s' l :
  jobStore s' = jobStore s -> history s' = history s ++ l ->
  Forall SavedOk l -> customerStore s' = customerStore s ->
  Sound s -> Sound s'.
Proof.
  intros Hst Hh Hl Hc. apply (Sound_update s s' l []); try done.
  - intros k d. rewrite Hst. auto.
  - by rewrite app_nil_r.
Qed.

Lemma insert_DocOk (i : string) (j : JobDoc) (m : gmap string JobDoc) k d :
  DocOk j -> <[i := j]> m !! k = Some d -> m !! k = Some d \/ DocOk d.
Proof.
  intros Hj. rewrite lookup_insert. case_decide.
  - intros [= <-]. by right.
  - by left.
Qed.

(** The paths a save drops are none of those the properties of a
    document are about. *)
Lemma DocOk_persisted d : DocOk d -> DocOk (persisted d).
Proof. intros [D1 D2 D3 D4 D5 D6]. by split. Qed.

Lemma DocOk_withProgress p j :
  ProgressOk DEFAULT_MAX_ERRORS p ->
  CsvProgress.processedRows p <= CsvProgress.totalRows p ->
  (status j = completed -> CsvProgress.processedRows p = CsvProgress.totalRows p) ->
  DocOk (withProgress p j).
Proof.
  intros [P1 P2 P3 P4] Hb Hc. split; simpl; done.
Qed.

Lemma ProgressOk_weaken cap p :
  cap <= DEFAULT_MAX_ERRORS -> ProgressOk cap p -> ProgressOk DEFAULT_MAX_ERRORS p.
Proof.
  intros Hc [P1 P2 P3 P4]. split; try done.
  unfold DEFAULT_MAX_ERRORS in *. lia.
Qed.

(** [persistProgress] stores a document that is as it should be. *)
Lemma persistProgress_sound p s :
  Sound s -> DocOk (withProgress p (job s)) ->
  let s' := (persistProgress E p s).2 in
  Sound s' /\ job s' = withProgress p (job s) /\ files s' = files s.
Proof.
  intros HS HD. pose proof (persistProgress_run E p s) as H. simpl in H.
  destruct (saveFailure E (saveCalls s)).
  - simpl. rewrite H. simpl. split; [|done].
    by apply (Sound_same s _ []); try done; simpl; rewrite ?app_nil_r.
  - destruct H as (rs & H). simpl. rewrite H. simpl. split; [|done].
    eapply Sound_update with (cs := []) (l := [Saved _; Published _ _ _]);
      simpl; try done.
    + intros k d. by apply insert_DocOk, DocOk_persisted.
    + constructor; [by apply DocOk_persisted|]. constructor; [exact I|constructor].
    + by rewrite app_nil_r.
Qed.

Section WithOptions.

Variable options : ProcessFileOptions.t.
Hypothesis Hcallback :
  ProcessFileOptions.onProgress options = Some (persistProgress E).
Hypothesis Hcap : maxErrors options <= DEFAULT_MAX_ERRORS.

Local Abbreviation cap := (maxErrors options).

Lemma options_keepLocals : keepsLocals options.
Proof.
  intros f p s. rewrite Hcallback. intros [= <-].
  apply persistProgress_locals.
Qed.

Lemma emitProgress_sound force s :
  Running s -> ProgressOk cap (progress s) ->
  CsvProgress.processedRows (progress s) <= CsvProgress.totalRows (progress s) ->
  let s' := (emitProgress options force s).2 in
  Running s' /\ progress s' = progress s /\ files s' = files s.
Proof.
  intros [HS HJ Hst] HP Hb.
  destruct (emitProgress_locals options force s options_keepLocals) as [Hp _].
  simpl. split; [|split; [exact Hp|]];
    unfold emitProgress; rewrite Hcallback; unfold bind, gets; simpl;
    destruct (_ && _)%bool; simpl; try done.
  - assert (HD : DocOk (withProgress (progress s) (job s))).
    { apply DocOk_withProgress; [by apply (ProgressOk_weaken cap)|done|].
      rewrite Hst. discriminate. }
    destruct (persistProgress_sound (progress s) s HS HD) as (S1 & S2 & _).
    split; [done| |]; rewrite S2; done.
  - assert (HD : DocOk (withProgress (progress s) (job s))).
    { apply DocOk_withProgress; [by apply (ProgressOk_weaken cap)|done|].
      rewrite Hst. discriminate. }
    by destruct (persistProgress_sound (progress s) s HS HD) as (_ & _ & S3).
Qed.

Lemma push_cap c e p :
  Z.of_nat (List.length (CsvProgress.errors p)) <= Z.max 0 c ->
  Z.of_nat (List.length (CsvProgress.errors (CsvProgress.push c e p)))
  <= Z.max 0 c.
Proof.
  intros H. simpl. destruct (Z.ltb_spec (Z.of_nat (List.length (CsvProgress.errors p))) c).
  - rewrite length_app. simpl. lia.
  - exact H.
Qed.

Lemma ProgressOk_invalid c e m p :
  ProgressOk c p ->
  ProgressOk c
    (CsvProgress.push c e
       (CsvProgress.withLastError m
          (CsvProgress.addProcessed (CsvProgress.addFailed p)))).
Proof.
  intros [P1 P2 P3 P4]. split; [simpl; lia..|]. by apply push_cap.
Qed.

Lemma ProgressOk_refused c e m p :
  ProgressOk c p ->
  ProgressOk c
    (CsvProgress.addProcessed
       (CsvProgress.push c e
          (CsvProgress.withLastError m (CsvProgress.addFailed p)))).
Proof.
  intros [P1 P2 P3 P4]. split; [simpl; lia..|].
  change (CsvProgress.errors (CsvProgress.addProcessed ?q))
    with (CsvProgress.errors q).
  by apply push_cap.
Qed.

Lemma ProgressOk_inserted c p :
  ProgressOk c p ->
  ProgressOk c (CsvProgress.addProcessed (CsvProgress.addSuccess p)).
Proof. intros [P1 P2 P3 P4]. split; simpl; try lia. Qed.

(** What a successful parse returns. *)
Lemma safeParse_inl r data :
  safeParse E r = inl data ->
  data = {| CustomerRow.name := Js.trim (CustomerRow.name r);
            CustomerRow.email := Js.trim (CustomerRow.email r);
            CustomerRow.phone := CustomerRow.phone r;
            CustomerRow.company := Js.trim (CustomerRow.company r) |}
  /\ (String.length (Js.trim (CustomerRow.name r)) <? 1)%nat = false
  /\ isEmail E (Js.trim (CustomerRow.email r)) = true
  /\ (String.length (Js.trim (CustomerRow.company r)) <? 1)%nat = false.
Proof.
  unfold safeParse.
  destruct (String.length (Js.trim (CustomerRow.name r)) <? 1)%nat;
    destruct (isEmail E (Js.trim (CustomerRow.email r)));
    destruct (String.length (Js.trim (CustomerRow.company r)) <? 1)%nat;
    simpl; intros [= <-]; done.
Qed.

(** The phone of a customer inserted for a row is never empty. *)
Lemma inserted_phoneOk raw data c :
  safeParse E (normalizeRow raw) = inl data ->
  c_phone c
  = Js.trim <$> (if bool_decide (CustomerRow.phone data = "") then None
                 else Some (CustomerRow.phone data)) ->
  phoneOk c.
Proof.
  intros Hv Hc. apply safeParse_inl in Hv as (-> & _). simpl in Hc.
  unfold phoneOk. rewrite Hc. case_bool_decide as Hp; simpl; [discriminate|].
  rewrite trim_idempotent. congruence.
Qed.

Lemma rowOutcome_sound raw s :
  Running s -> ProgressOk cap (progress s) ->
  let s' := (rowOutcome E options raw s).2 in
  Running s' /\ ProgressOk cap (progress s')
  /\ CsvProgress.processedRows (progress s')
     = CsvProgress.processedRows (progress s) + 1
  /\ CsvProgress.totalRows (progress s') = CsvProgress.totalRows (progress s)
  /\ files s' = files s.
Proof.
  intros [HS HJ Hst] HP. cbv zeta.
  destruct (safeParse E (normalizeRow raw)) as [data|issues] eqn:Hv.
  - destruct (createArgs_run E options data s)
      as [(e & calls & Hrun)|(c & Hrun & Hc & _)].
    + rewrite (rowOutcome_refused E options raw data e s _ Hv Hrun). simpl.
      split; [split; simpl; try done|split; [by apply ProgressOk_refused|done]].
      apply (Sound_same s _ []); simpl; rewrite ?app_nil_r; done.
    + rewrite (rowOutcome_inserted E options raw data s _ Hv Hrun). simpl.
      split; [split; simpl; try done|split; [by apply ProgressOk_inserted|done]].
      apply (Sound_update s _ [Inserted c] [c]); simpl; try done.
      * auto.
      * by repeat constructor.
      * constructor; [|constructor]. by eapply inserted_phoneOk.
  - rewrite (rowOutcome_invalid E options raw issues s Hv). simpl.
    split; [split; simpl; try done|split; [by apply ProgressOk_invalid|done]].
    apply (Sound_same s _ []); simpl; rewrite ?app_nil_r; done.
Qed.

Lemma rowBody_sound raw s :
  Running s -> ProgressOk cap (progress s) ->
  CsvProgress.processedRows (progress s) < CsvProgress.totalRows (progress s) ->
  let s' := (rowBody E options raw s).2 in
  Running s' /\ ProgressOk cap (progress s')
  /\ CsvProgress.processedRows (progress s')
     = CsvProgress.processedRows (progress s) + 1
  /\ CsvProgress.totalRows (progress s') = CsvProgress.totalRows (progress s)
  /\ files s' = files s.
Proof.
  intros HR HP Hlt. cbv zeta. rewrite rowBody_outcome. unfold bind.
  pose proof (rowOutcome_ok E options raw s) as Hok.
  destruct (rowOutcome_sound raw s HR HP) as (R1 & P1 & Hn & Ht & Hf).
  destruct (rowOutcome E options raw s) as [r s1]. simpl in *. subst r.
  destruct (emitProgress_sound false s1 R1 P1) as (R2 & Hp & Hf2); [lia|].
  rewrite Hp. rewrite Hf2. done.
Qed.

(** The loop over the rows: every row is counted, and the loop ends
    only when the file stream delivered all its rows without an
    error. *)
Lemma forAwait_sound rows failure s :
  Running s -> ProgressOk cap (progress s) ->
  CsvProgress.processedRows (progress s) + Z.of_nat (List.length rows)
  <= CsvProgress.totalRows (progress s) ->
  let out := forAwait rows failure (rowBody E options) s in
  Running out.2 /\ ProgressOk cap (progress out.2)
  /\ CsvProgress.totalRows (progress out.2) = CsvProgress.totalRows (progress s)
  /\ CsvProgress.processedRows (progress out.2)
     <= CsvProgress.totalRows (progress s)
  /\ files out.2 = files s
  /\ (out.1 = Ok tt ->
      failure = None
      /\ CsvProgress.processedRows (progress out.2)
         = CsvProgress.processedRows (progress s) + Z.of_nat (List.length rows)).
Proof.
  revert s. induction rows as [|raw rows IH]; intros s HR HP Hb;
    cbv zeta; cbn [forAwait].
  - simpl in Hb.
    destruct failure; simpl; split_and!; try done; try lia.
    intros _. split; [done|lia].
  - simpl in Hb. unfold bind.
    destruct (rowBody_sound raw s HR HP) as (R1 & P1 & Hn & Ht & Hf); [lia|].
    destruct (rowBody E options raw s) as [[[]|e|] s1]; simpl in *.
    + destruct (IH s1 R1 P1) as (R2 & P2 & Ht2 & Hb2 & Hf2 & Hok); [lia|].
      split_and!; try done; try congruence; try lia.
      intros Hr. destruct (Hok Hr) as [-> Hp]. split; [done|]. lia.
    + split_and!; try done; lia.
    + split_and!; try done; lia.
Qed.

Lemma Running_frame s s' :
  jobStore s' = jobStore s -> history s' = history s ->
  customerStore s' = customerStore s -> job s' = job s ->
  Running s -> Running s'.
Proof.
  intros H1 H2 H3 H4 [HS HJ Hst]. split; rewrite ?H4; try done.
  apply (Sound_same s s' []); rewrite ?app_nil_r; done.
Qed.

(** A stream delivers the rows of the file, or a prefix of them and
    then an error of the file stream; without the file it delivers
    nothing but the error. *)
Lemma createReadStream_run filePath s :
  exists rows failure,
    createReadStream E filePath s
    = (Ok (rows, failure), set_streamsOpened (S (streamsOpened s)) s)
    /\ (failure = None -> files s !! filePath = Some rows)
    /\ (forall all, files s !! filePath = Some all ->
        (List.length rows <= List.length all)%nat).
Proof.
  unfold createReadStream, bind, gets, modify, ret. simpl.
  destruct (files s !! filePath) as [all|] eqn:Hf.
  - destruct (streamFailure E (streamsOpened s)) as [[k e]|].
    + destruct (Nat.leb_spec k (List.length all)).
      * eexists _, _. split; [reflexivity|]. split; [discriminate|].
        intros ? [= <-]. rewrite length_take. lia.
      * eexists _, _. split; [reflexivity|]. split; [done|].
        by intros ? [= <-].
    + eexists _, _. split; [reflexivity|]. split; [done|]. by intros ? [= <-].
  - eexists _, _. split; [reflexivity|]. split; discriminate.
Qed.

(** [countRows] returns the number of rows of the file, or the
    process dies; it never throws. *)
Lemma countRows_run filePath s :
  countRows E filePath s = (Crash, set_streamsOpened (S (streamsOpened s)) s)
  \/ exists all,
      files s !! filePath = Some all
      /\ countRows E filePath s
         = (Ok (Z.of_nat (List.length all)),
            set_streamsOpened (S (streamsOpened s)) s).
Proof.
  unfold countRows, bind.
  destruct (createReadStream_run filePath s) as (rows & failure & -> & Hn & _).
  simpl. destruct failure as [e|].
  - by left.
  - right. exists rows. split; [by apply Hn|reflexivity].
Qed.

(** The [catch] block of [processFile]. *)
Lemma processFile_catch_sound err m s :
  Running s -> ProgressOk cap (progress s) ->
  CsvProgress.processedRows (progress s) <= CsvProgress.totalRows (progress s) ->
  let out :=
    (run updateProgress (CsvProgress.withLastError m);
     run emitProgress options true;
     throw (A := CsvProgress.t) err) s in
  Running out.2 /\ files out.2 = files s /\ forall p, out.1 <> Ok p.
Proof.
  intros HR HP Hb out. run_of out as Hout.
  unfold bind at 1, updateProgress, modify in Hout. cbn beta iota in Hout.
  set (s1 := set_progress _ s) in Hout.
  assert (R1 : Running s1) by (by apply (Running_frame s)).
  assert (P1 : ProgressOk cap (progress s1)) by (by destruct HP).
  destruct (emitProgress_sound true s1 R1 P1 Hb) as (R2 & _ & Hf).
  unfold bind in Hout.
  destruct (emitProgress options true s1) as [[[]|e|] s2];
    subst out; simpl in *; done.
Qed.

(** [processFile] keeps the state sound; when it returns, every row of
    the file was counted. *)
Lemma processFile_sound s :
  Running s ->
  let out := processFile E options s in
  Running out.2 /\ files out.2 = files s
  /\ forall p, out.1 = Ok p ->
       ProgressOk cap p
       /\ CsvProgress.processedRows p = CsvProgress.totalRows p.
Proof.
  intros HR out. run_of out as Hout.
  unfold processFile in Hout. unfold bind at 1 in Hout.
  destruct (countRows_run (ProcessFileOptions.filePath options) s)
    as [Hc|(all & Hall & Hc)]; rewrite Hc in Hout; clear Hc.
  { subst out. simpl. split; [by apply (Running_frame s)|done]. }
  unfold bind at 1 in Hout. unfold modify at 1 in Hout. cbn beta iota in Hout.
  set (s1 := set_progress _ _) in Hout.
  assert (R1 : Running s1) by (by apply (Running_frame s)).
  unfold bind at 1 in Hout.
  destruct (createReadStream_run (ProcessFileOptions.filePath options) s1)
    as (rows & failure & Hc & Hnone & Hlen); rewrite Hc in Hout; clear Hc.
  specialize (Hlen all Hall).
  unfold bind at 1 in Hout. unfold modify at 1 in Hout. cbn beta iota in Hout.
  set (s2 := set_currentRow 1 _) in Hout.
  assert (R2 : Running s2) by (by apply (Running_frame s1)).
  assert (P2 : ProgressOk cap (progress s2)) by (split; simpl; lia).
  assert (B2 : CsvProgress.processedRows (progress s2)
               <= CsvProgress.totalRows (progress s2)) by (simpl; lia).
  destruct (emitProgress_sound true s2 R2 P2 B2) as (R3 & Hp3 & Hf3).
  unfold bind at 1 in Hout.
  destruct (emitProgress options true s2) as [[[]|e|] s3]; simpl in *;
    [|by subst out..].
  unfold try_catch in Hout.
  assert (P3 : ProgressOk cap (progress s3)) by (by rewrite Hp3).
  destruct (forAwait_sound rows failure s3 R3 P3)
    as (R4 & P4 & Ht4 & Hb4 & Hf4 & Hok4); [rewrite Hp3; simpl; lia|].
  unfold bind at 1 in Hout.
  destruct (forAwait rows failure (rowBody E options) s3) as [[[]|e|] s4];
    simpl in *.
  - destruct (Hok4 eq_refl) as [-> Hn4].
    assert (B4 : CsvProgress.processedRows (progress s4)
                 <= CsvProgress.totalRows (progress s4)) by lia.
    destruct (emitProgress_sound true s4 R4 P4 B4) as (R5 & Hp5 & Hf5).
    unfold bind at 1 in Hout.
    destruct (emitProgress options true s4) as [[[]|e|] s5] eqn:He; simpl in *.
    + subst out. unfold gets. simpl. split; [done|]. split; [congruence|].
      intros p [= <-]. rewrite Hp5. split; [done|].
      rewrite Ht4, Hn4, Hp3. simpl.
      specialize (Hnone eq_refl). simpl in Hnone.
      rewrite Hall in Hnone. injection Hnone as ->. lia.
    + assert (B5 : CsvProgress.processedRows (progress s5)
                   <= CsvProgress.totalRows (progress s5)) by (by rewrite Hp5).
      assert (P5 : ProgressOk cap (progress s5)) by (by rewrite Hp5).
      destruct (processFile_catch_sound e
                  (Some (if Exn.isError e then default "" (Exn.message e)
                         else "unknown error")) s5 R5 P5 B5)
        as (R6 & Hf6 & Hno).
      subst out. split; [done|]. split; [congruence|].
      intros p Hp. by apply Hno in Hp.
    + subst out. simpl. split; [done|]. split; [congruence|]. done.
  - assert (B4 : CsvProgress.processedRows (progress s4)
                 <= CsvProgress.totalRows (progress s4)) by lia.
    destruct (processFile_catch_sound e
                (Some (if Exn.isError e then default "" (Exn.message e)
                       else "unknown error")) s4 R4 P4 B4)
      as (R6 & Hf6 & Hno).
    subst out. split; [done|]. split; [congruence|].
    intros p Hp. by apply Hno in Hp.
  - subst out. simpl. split; [done|]. split; [congruence|]. done.
Qed.

End WithOptions.

End Importer.

(** ** One invocation of [processCsvJob] *)

Section Job.

Variable E : Env.

(** [safeDelete] never throws; it removes the file when there is one. *)
Lemma safeDelete_run filePath s :
  safeDelete filePath s
  = (Ok tt,
     match files s !! filePath with
     | Some _ =>
         set_history (history s ++ [Unlinked filePath])
           (set_files (delete filePath (files s)) s)
     | None => s
     end).
Proof.
  unfold safeDelete, try_catch, unlink, bind, gets, modify, log, modify, throw, ret.
  simpl. destruct (files s !! filePath); reflexivity.
Qed.

Lemma safeDelete_sound filePath s :
  Sound s -> Sound (safeDelete filePath s).2.
Proof.
  intros HS. rewrite safeDelete_run. simpl.
  destruct (files s !! filePath); [|done].
  by apply (Sound_same s _ [Unlinked filePath]); try done; repeat constructor.
Qed.

Lemma DocOk_withStatus st a b c j :
  st <> completed -> DocOk j -> DocOk (withStatus st a b c j).
Proof. intros Hst [D1 D2 D3 D4 D5 D6]. split; simpl; done. Qed.

(** A save of the hydrated document. *)
Lemma job_save_sound s :
  Sound s -> DocOk (job s) -> Sound (job_save E s).2.
Proof.
  intros HS HD. rewrite job_save_run.
  destruct (saveFailure E (saveCalls s)); simpl.
  - by apply (Sound_same s _ []); rewrite ?app_nil_r.
  - apply (Sound_update s _ [Saved (persisted (job s))] []); simpl;
      rewrite ?app_nil_r; try done.
    + intros k d. by apply insert_DocOk, DocOk_persisted.
    + constructor; [by apply DocOk_persisted|constructor].
Qed.

Lemma broadcast_sound jobId event data s :
  Sound s -> Sound (broadcast E jobId event data s).2.
Proof.
  intros HS. destruct (broadcast_frame E jobId event data s) as (rs & ->).
  by apply (Sound_same s _ [Published jobId event data]); try done;
    repeat constructor.
Qed.

Lemma broadcastAndClose_sound jobId event data s :
  Sound s -> Sound (broadcastAndClose E jobId event data s).2.
Proof.
  intros HS. destruct (broadcastAndClose_frame E jobId event data s) as (rs & ->).
  by apply (Sound_same s _ [PublishedAndClosed jobId event data]); try done;
    repeat constructor.
Qed.

(** The [catch] block stores the job as failed. *)
Lemma processCsvJob_catch_sound jobId err s :
  Sound s -> DocOk (job s) -> Sound (processCsvJob_catch E jobId err s).2.
Proof.
  intros HS HD. unfold processCsvJob_catch, bind, newDate, setJob, modify, gets.
  cbn beta iota.
  set (s1 := set_job _ _).
  assert (S1 : Sound s1) by (by apply (Sound_same s _ []); rewrite ?app_nil_r).
  assert (D1 : DocOk (job s1)) by (by apply DocOk_withStatus).
  pose proof (job_save_sound s1 S1 D1) as S2.
  destruct (job_save E s1) as [[[]|e|] s2] eqn:Hs; simpl in *; [|done..].
  pose proof (broadcast_sound jobId "progress"
                (DProgress (toProgress (job s2))) s2 S2) as S3.
  destruct (broadcast_frame E jobId "progress"
              (DProgress (toProgress (job s2))) s2) as (rs & Hb).
  rewrite Hb in *. clear Hb. simpl in *.
  pose proof (broadcastAndClose_sound jobId "done" (DDone jobId failed) _ S3) as S4.
  destruct (broadcastAndClose_frame E jobId "done" (DDone jobId failed)
              (set_responses rs
                 (set_history (history s2 ++ [Published jobId "progress"
                    (DProgress (toProgress (job s2)))]) s2))) as (rs' & Hb).
  rewrite Hb in *. exact S4.
Qed.

Lemma importOptions_cap jobId filePath :
  maxErrors (importOptions E jobId filePath) <= DEFAULT_MAX_ERRORS.
Proof. done. Qed.

(** The [try] block: the state stays sound, and so does the hydrated
    document whatever happens. *)
Lemma processCsvJob_try_sound jobId filePath s :
  Running s ->
  let out := processCsvJob_try E jobId filePath s in
  Sound out.2 /\ DocOk (job out.2).
Proof.
  intros HR out. run_of out as Hout.
  unfold processCsvJob_try in Hout. unfold bind at 1 in Hout.
  destruct (processFile_sound E (importOptions E jobId filePath) eq_refl
              (importOptions_cap jobId filePath) s HR) as (R1 & _ & Hres).
  destruct (processFile E (importOptions E jobId filePath) s) as [[p|e|] s1];
    simpl in *; [|subst out; by destruct R1..].
  destruct (Hres p eq_refl) as (HP & Hdone). destruct R1 as [S1 D1 St1].
  unfold bind at 1, newDate in Hout. cbn beta iota in Hout.
  unfold bind at 1, setJob, modify in Hout. cbn beta iota in Hout.
  set (s2 := set_job _ _) in Hout.
  assert (S2 : Sound s2) by (by apply (Sound_same s1 _ []); rewrite ?app_nil_r).
  assert (D2 : DocOk (withProgress p (job s2))).
  { apply DocOk_withProgress; [done|lia|done]. }
  destruct (persistProgress_sound E p s2 S2 D2) as (S3 & J3 & _).
  unfold bind at 1 in Hout.
  destruct (persistProgress E p s2) as [[[]|e|] s3]; simpl in *;
    [|subst out; simpl; by rewrite J3..].
  destruct (broadcastAndClose_frame E jobId "done" (DDone jobId completed) s3)
    as (rs & Hb).
  pose proof (broadcastAndClose_sound jobId "done" (DDone jobId completed) s3 S3)
    as S4.
  rewrite Hb in *. subst out. simpl. by rewrite J3.
Qed.

(** C1, C2 and C5 rest on this: an invocation of the importer keeps the
    state sound. *)
Lemma processCsvJob_sound jobId filePath s :
  Sound s -> Sound (processCsvJob E jobId filePath s).2.
Proof.
  intros HS. set (out := processCsvJob E jobId filePath s).
  run_of out as Hout.
  unfold processCsvJob in Hout. unfold bind at 1, Job_findById, gets in Hout.
  cbn beta iota in Hout.
  destruct (jobStore s !! jobId) as [doc|] eqn:Hdoc.
  2:{ subst out. by apply safeDelete_sound. }
  assert (HD : DocOk doc) by (by destruct HS as [H _ _]; apply (H jobId)).
  unfold bind at 1, modify at 1 in Hout. cbn beta iota in Hout.
  unfold bind at 1, newDate in Hout. cbn beta iota in Hout.
  unfold bind at 1, setJob, modify in Hout. cbn beta iota in Hout.
  set (s1 := set_job _ _) in Hout.
  assert (S1 : Sound s1) by (by apply (Sound_same s _ []); rewrite ?app_nil_r).
  assert (D1 : DocOk (job s1)) by (by apply DocOk_withStatus).
  pose proof (job_save_sound s1 S1 D1) as S2.
  assert (J2 : job (job_save E s1).2 = job s1).
  { rewrite job_save_run. by destruct (saveFailure E (saveCalls s1)). }
  unfold bind at 1 in Hout.
  destruct (job_save E s1) as [[[]|e|] s2]; simpl in *; [|by subst out..].
  unfold bind at 1, gets in Hout. cbn beta iota in Hout.
  unfold bind at 1 in Hout.
  pose proof (broadcast_sound jobId "progress"
                (DProgress (toProgress (job s2))) s2 S2) as S3.
  destruct (broadcast_frame E jobId "progress"
              (DProgress (toProgress (job s2))) s2) as (rs & Hb).
  rewrite Hb in *. clear Hb. simpl in S3.
  set (s3 := set_responses rs _) in *.
  assert (R3 : Running s3)
    by (split; unfold s3; simpl; [done|by rewrite J2|by rewrite J2]).
  unfold try_finally, try_catch in Hout.
  destruct (processCsvJob_try_sound jobId filePath s3 R3) as (S4 & D4).
  destruct (processCsvJob_try E jobId filePath s3) as [[[]|e|] s4]; simpl in *.
  - pose proof (safeDelete_sound filePath s4 S4) as S5.
    rewrite safeDelete_run in Hout, S5. by subst out.
  - pose proof (processCsvJob_catch_sound jobId e s4 S4 D4) as S5.
    destruct (processCsvJob_catch E jobId e s4) as [r s5]. simpl in *.
    pose proof (safeDelete_sound filePath s5 S5) as S6.
    rewrite safeDelete_run in Hout, S6. by destruct r; subst out.
  - by subst out.
Qed.

End Job.

(** ** The service keeps the state sound *)

Section SystemSound.

Variable E : Env.

Lemma quiet_ret {A} (a : A) : quiet (ret a).
Proof. by intros s. Qed.

Lemma quiet_throw {A} e : quiet (throw (A := A) e).
Proof. by intros s. Qed.

Lemma quiet_gets {A} (f : State -> A) : quiet (gets f).
Proof. by intros s. Qed.

Lemma quiet_bind {A B} (m : M A) (k : A -> M B) :
  quiet m -> (forall a, quiet (k a)) -> quiet (bind m k).
Proof.
  intros Hm Hk s. unfold bind. specialize (Hm s).
  destruct (m s) as [[a|e|] s1]; simpl in *; [|done..].
  destruct (Hk a s1) as (K1 & K2 & K3 & K4). destruct Hm as (M1 & M2 & M3 & M4).
  split_and!; congruence.
Qed.

Lemma quiet_try_catch {A} (m : M A) (h : Exn.t -> M A) :
  quiet m -> (forall e, quiet (h e)) -> quiet (try_catch m h).
Proof.
  intros Hm Hh s. unfold try_catch. specialize (Hm s).
  destruct (m s) as [[a|e|] s1]; simpl in *; [done| |done].
  destruct (Hh e s1) as (K1 & K2 & K3 & K4). destruct Hm as (M1 & M2 & M3 & M4).
  split_and!; congruence.
Qed.

Lemma quiet_onResponse res f : quiet (onResponse res f).
Proof. by intros s. Qed.

Lemma quiet_res_write res chunk : quiet (res_write E res chunk).
Proof. unfold res_write. destruct (writeFailure E res); by intros s. Qed.

Lemma quiet_sendEvent res event data : quiet (sendEvent E res event data).
Proof.
  intros s. by destruct (sendEvent_frame E res event data s) as (rs & ->).
Qed.

Lemma quiet_errorMiddleware err res : quiet (errorMiddleware err res).
Proof. unfold errorMiddleware. destruct (Exn.isError err); by intros s. Qed.

Lemma quiet_removeClient jobId res : quiet (removeClient jobId res).
Proof.
  intros s. unfold removeClient, modify. simpl.
  destruct (clientsByJobId s !! jobId); [|done].
  by destruct (bool_decide _).
Qed.

(** Attaching an observer writes no store. *)
Lemma quiet_streamJob jobId res : quiet (streamJob E jobId res).
Proof.
  unfold streamJob. apply quiet_try_catch; [|intros; apply quiet_errorMiddleware].
  destruct (_ || _)%bool; [apply quiet_onResponse|].
  repeat (apply quiet_bind; [first [apply quiet_onResponse|apply quiet_res_write]|intros _]).
  apply quiet_bind; [apply quiet_gets|intros [j|]].
  - apply quiet_bind; [apply quiet_sendEvent|intros _].
    destruct (isTerminal (status j)).
    + apply quiet_bind; [apply quiet_sendEvent|intros _]. apply quiet_onResponse.
    + apply quiet_bind; [by intros s|intros _].
      apply quiet_bind; by intros s.
  - apply quiet_bind; [apply quiet_res_write|intros _]. apply quiet_onResponse.
Qed.

Lemma quiet_onClose res : quiet (onClose res).
Proof.
  unfold onClose. apply quiet_bind; [apply quiet_gets|intros handlers].
  destruct (handlers !! res) as [jobId|]; [|apply quiet_ret].
  apply quiet_bind; [by intros s|intros _].
  apply quiet_bind; [apply quiet_removeClient|intros _]. apply quiet_onResponse.
Qed.

Lemma quiet_sound {A} (m : M A) s : quiet m -> Sound s -> Sound (m s).2.
Proof.
  intros Hq HS. destruct (Hq s) as (Q1 & Q2 & Q3 & _).
  apply (Sound_same s _ []); rewrite ?app_nil_r; done.
Qed.

(** A new job has all its counters at zero. *)
Lemma createPendingJob_sound name s :
  Sound s -> Sound (createPendingJob E name s).2.
Proof.
  intros HS. unfold createPendingJob.
  destruct (bool_decide (name = "")); [done|].
  unfold bind, newDate. cbn beta iota. rewrite writeJob_run. simpl.
  destruct (saveFailure E (saveCalls s)); simpl.
  - by apply (Sound_same s _ []); rewrite ?app_nil_r.
  - eapply (Sound_update s _ [Saved _] []); simpl; rewrite ?app_nil_r; try done.
    + intros k d. apply insert_DocOk. by split.
    + constructor; [by split|constructor].
Qed.

Lemma respondJson_sound res c d s : Sound s -> Sound (respondJson res c d s).2.
Proof. apply quiet_sound, quiet_onResponse. Qed.

Lemma errorMiddleware_sound err res s :
  Sound s -> Sound (errorMiddleware err res s).2.
Proof. apply quiet_sound, quiet_errorMiddleware. Qed.

Lemma uploadCsv_sound file res sys :
  Sound (world sys) -> Sound (world (uploadCsv E file res sys)).
Proof.
  intros HS. unfold uploadCsv. destruct file as [[name filePath]|].
  - destruct (bool_decide (filePath = "")).
    + cbn [world]. by apply respondJson_sound.
    + pose proof (createPendingJob_sound name (world sys) HS) as H1.
      destruct (createPendingJob E name (world sys)) as [[doc|e|] w];
        cbn [world snd] in *.
      * by apply respondJson_sound.
      * by apply errorMiddleware_sound.
      * done.
  - cbn [world]. by apply respondJson_sound.
Qed.

Lemma handle_sound i sys : Sound (world sys) -> Sound (world (handle E i sys)).
Proof.
  intros HS. destruct i; cbn [handle world]; try done.
  - apply uploadCsv_sound. cbn [world].
    by apply (Sound_same (world sys) _ []); rewrite ?app_nil_r.
  - by apply quiet_sound; [apply quiet_streamJob|].
  - by apply quiet_sound; [apply quiet_onClose|].
  - by apply quiet_sound; [apply quiet_res_write|].
  - destruct (InMemoryJobQueue.awaiting (jobQueue sys) !! k); [|done].
    cbv zeta. destruct (settles _); cbn [world]; by apply processCsvJob_sound.
Qed.

Lemma step_sound i sys : Sound (world sys) -> Sound (world (step E i sys)).
Proof.
  intros HS. unfold step. destruct (alive sys); [by apply handle_sound|done].
Qed.

Lemma serve_app inputs1 inputs2 sys :
  serve E (inputs1 ++ inputs2) sys = serve E inputs2 (serve E inputs1 sys).
Proof. unfold serve. apply fold_left_app. Qed.

Lemma initial_sound : Sound (world initial).
Proof. split; simpl; [by intros k d; rewrite lookup_empty|constructor..]. Qed.

(** Whatever the service is asked to do, in whatever order and whatever
    fails, its state is sound. *)
Lemma serve_sound inputs : Sound (world (serve E inputs initial)).
Proof.
  induction inputs as [|i inputs IH] using rev_ind; [apply initial_sound|].
  rewrite serve_app. simpl. by apply step_sound.
Qed.

Lemma savePoints_of_sound (P : JobDoc -> Prop) s :
  (forall d, DocOk d -> P d) -> Sound s -> savePoints P (history s).
Proof.
  intros HP [_ H _]. unfold savePoints. eapply Forall_impl; [exact H|].
  intros [] Hx; simpl in *; auto.
Qed.

End SystemSound.

(** ** The counters of a job *)

Section Outcome.

Variable E : Env.

(** A row either succeeds or fails, and is counted once either way. *)
Lemma rowOutcome_progress options raw s :
  let p := progress s in
  let p' := progress (rowOutcome E options raw s).2 in
  p' = rowSucceeded p
  \/ exists e, rowNumber e = currentRow s /\ p' = rowFailed (maxErrors options) e p.
Proof.
  cbv zeta. destruct (safeParse E (normalizeRow raw)) as [data|issues] eqn:Hv.
  - destruct (createArgs_run E options data s)
      as [(e & calls & Hrun)|(c & Hrun & Hc & _)].
    + rewrite (rowOutcome_refused E options raw data e s _ Hv Hrun).
      right. eexists (errorRecord _ _ _). split; reflexivity.
    + rewrite (rowOutcome_inserted E options raw data s _ Hv Hrun).
      left. reflexivity.
  - rewrite (rowOutcome_invalid E options raw issues s Hv).
    right. eexists (errorRecord _ _ _). split; reflexivity.
Qed.

End Outcome.

Example four_rows :
  Scenario.stored
    (serve Scenario.calm
       [QueueStart; Upload "a.csv" "/uploads/a.csv" Scenario.fourRows 0;
        WorkerSettles 0] initial) "job0"
  = Some (completed, 4, 4, 2, 2, 2%nat).
Proof. vm_compute. reflexivity. Qed.

(** C1: at every save point of a job document, during and after
    processing, [processedRows = successCount + failedCount], whatever the
    service is asked to do and whatever fails; and the body of the loop
    counts a row in [processedRows] and in exactly one of [successCount] and
    [failedCount] before it reports progress. *)
Theorem C1_counters_agree (E : Env) :
  (forall inputs,
      savePoints countersAgree (history (world (serve E inputs initial)))
      /\ map_Forall (fun _ d => countersAgree d)
           (jobStore (world (serve E inputs initial))))
  /\ (forall options raw s,
        rowBody E options raw s
        = (run rowOutcome E options raw; emitProgress options false) s
        /\ let p := progress s in
           let p' := progress (rowOutcome E options raw s).2 in
           CsvProgress.processedRows p' = CsvProgress.processedRows p + 1
           /\ (CsvProgress.successCount p' = CsvProgress.successCount p + 1
               /\ CsvProgress.failedCount p' = CsvProgress.failedCount p
               \/ CsvProgress.successCount p' = CsvProgress.successCount p
                  /\ CsvProgress.failedCount p' = CsvProgress.failedCount p + 1)).
Proof.
  split.
  - intros inputs. pose proof (serve_sound E inputs) as HS. split.
    + apply savePoints_of_sound; [|done]. by intros d [].
    + intros k d Hk. destruct HS as [H _ _]. by destruct (H k d Hk).
  - intros options raw s. split; [apply rowBody_outcome|].
    destruct (rowOutcome_progress E options raw s) as [->|(e & _ & ->)]; simpl.
    + split; [done|]. by left.
    + split; [done|]. by right.
Qed.

(** C2, as stated, fails for a failed job: the Job Store rejects the
    first progress report of [processFile] and accepts the next write; the
    job is stored as failed with the two rows the first pass counted, and
    none of them was processed. *)
Lemma C2_counterexample :
  Scenario.stored
    (serve (Scenario.saveRejected 2)
       [QueueStart;
        Upload "a.csv" "/uploads/a.csv" [Scenario.ann; Scenario.di] 0;
        WorkerSettles 0] initial) "job0"
  = Some (failed, 2, 0, 0, 0, 0%nat).
Proof. vm_compute. reflexivity. Qed.

(** C2 (amended): every job that reaches [completed] is stored with
    [processedRows = totalRows]; a job that reaches [failed] is stored with
    [processedRows <= totalRows], the rows behind the fatal error not being
    accounted for. *)
Theorem C2_rows_accounted (E : Env) (inputs : list Input) :
  savePoints accounted (history (world (serve E inputs initial)))
  /\ map_Forall (fun _ d => accounted d)
       (jobStore (world (serve E inputs initial))).
Proof.
  assert (H : forall d, DocOk d -> accounted d).
  { intros d [D1 D2 D3 D4 D5 D6]. unfold accounted.
    destruct (status d); auto. }
  pose proof (serve_sound E inputs) as HS. split.
  - by apply savePoints_of_sound.
  - intros k d Hk. destruct HS as [HS _ _]. eauto.
Qed.

Example many_bad_rows :
  Scenario.stored
    (serve Scenario.calm
       [QueueStart; Upload "bad.csv" "/uploads/bad.csv" Scenario.manyBadRows 0;
        WorkerSettles 0] initial) "job0"
  = Some (completed, 51, 51, 0, 51, 50%nat).
Proof. vm_compute. reflexivity. Qed.

(** C5: the error list of a job never holds more than the cap, 50 by
    default, at any save point.  A row that fails, because it does not pass
    the schema or because [Customer.create] throws for it, is counted in
    [failedCount] in every case, and its record is appended exactly when
    the list is shorter than the cap; a row that is inserted changes
    neither.  So the list never grows beyond the larger of its length and
    the cap, and [failedCount] may exceed the number of retained records:
    51 failed rows leave 50 records. *)
Theorem C5_error_cap (E : Env) :
  (forall inputs,
      savePoints withinCap (history (world (serve E inputs initial)))
      /\ map_Forall (fun _ d => withinCap d)
           (jobStore (world (serve E inputs initial))))
  /\ (forall options raw s,
        let cap := default DEFAULT_MAX_ERRORS (ProcessFileOptions.maxErrors options) in
        let p := progress s in
        let p' := progress (rowOutcome E options raw s).2 in
        let retained (e : JobError) :=
          if Z.of_nat (List.length (CsvProgress.errors p)) <? cap
          then CsvProgress.errors p ++ [e] else CsvProgress.errors p in
        (forall issues,
            safeParse E (normalizeRow raw) = inr issues ->
            CsvProgress.failedCount p' = CsvProgress.failedCount p + 1
            /\ CsvProgress.errors p'
               = retained (errorRecord (currentRow s) (Js.join ", " issues) raw))
        /\ (forall data err,
              safeParse E (normalizeRow raw) = inl data ->
              (createArgs E options data s).1 = Throw err ->
              CsvProgress.failedCount p' = CsvProgress.failedCount p + 1
              /\ CsvProgress.errors p'
                 = retained (errorRecord (currentRow s) (insertFailureMessage err)
                               (CustomerRow.toRecord data)))
        /\ (forall data,
              safeParse E (normalizeRow raw) = inl data ->
              (createArgs E options data s).1 = Ok tt ->
              CsvProgress.failedCount p' = CsvProgress.failedCount p
              /\ CsvProgress.errors p' = CsvProgress.errors p)
        /\ Z.of_nat (List.length (CsvProgress.errors p'))
           <= Z.max (Z.of_nat (List.length (CsvProgress.errors p))) cap
        /\ (keepsLocals options ->
            progress (rowBody E options raw s).2 = p'))
  /\ (forall jobId filePath, keepsLocals (importOptions E jobId filePath))
  /\ Scenario.stored
       (serve Scenario.calm
          [QueueStart; Upload "bad.csv" "/uploads/bad.csv" Scenario.manyBadRows 0;
           WorkerSettles 0] initial) "job0"
     = Some (completed, 51, 51, 0, 51, 50%nat).
Proof.
  split; [|split; [|split]].
  - intros inputs. pose proof (serve_sound E inputs) as HS. split.
    + apply savePoints_of_sound; [|done]. by intros d [].
    + intros k d Hk. destruct HS as [H _ _]. by destruct (H k d Hk).
  - intros options raw s cap p p' retained. subst p'. split_and!.
    + intros issues Hv.
      by rewrite (rowOutcome_invalid E options raw issues s Hv).
    + intros data err Hv Hc.
      destruct (createArgs_run E options data s)
        as [(e & calls & Hrun)|(c & Hrun & _)];
        rewrite Hrun in Hc; cbn [fst] in Hc; [|discriminate].
      injection Hc as ->.
      by rewrite (rowOutcome_refused E options raw data err s _ Hv Hrun).
    + intros data Hv Hc.
      destruct (createArgs_run E options data s)
        as [(e & calls & Hrun)|(c & Hrun & _)];
        rewrite Hrun in Hc; cbn [fst] in Hc; [discriminate|].
      by rewrite (rowOutcome_inserted E options raw data s _ Hv Hrun).
    + destruct (rowOutcome_progress E options raw s) as [->|(e & _ & ->)].
      * change (CsvProgress.errors (rowSucceeded (progress s)))
          with (CsvProgress.errors p). lia.
      * change (CsvProgress.errors (rowFailed (maxErrors options) e (progress s)))
          with (if Z.of_nat (List.length (CsvProgress.errors p)) <? cap
                then CsvProgress.errors p ++ [e] else CsvProgress.errors p).
        destruct (Z.ltb_spec (Z.of_nat (List.length (CsvProgress.errors p))) cap).
        -- rewrite length_app. simpl. lia.
        -- lia.
    + intros K. by destruct (rowBody_locals E options raw s K).
  - intros jobId filePath. apply importOptions_keepsLocals.
  - vm_compute. reflexivity.
Qed.

(** A row without a name is counted as failed, and its record is the
    first of the list. *)
Lemma C5_witness :
  CsvProgress.failedCount
    (progress
       (rowOutcome Scenario.calm
          (importOptions Scenario.calm "job0" "/uploads/bad.csv")
          Scenario.noName emptyWorld).2)
  = CsvProgress.failedCount (progress emptyWorld) + 1
  /\ CsvProgress.errors
       (progress
          (rowOutcome Scenario.calm
             (importOptions Scenario.calm "job0" "/uploads/bad.csv")
             Scenario.noName emptyWorld).2)
     = [errorRecord 0 "name is required" Scenario.noName].
Proof.
  exact (proj1 (proj1 (proj2 (C5_error_cap Scenario.calm))
                  (importOptions Scenario.calm "job0" "/uploads/bad.csv")
                  Scenario.noName emptyWorld)
           ["name is required"] eq_refl).
Defined.

(** ** A job that is not in the Job Store *)

(** C10: when the Job Store has no job for [jobId], [processCsvJob]
    returns normally, leaves the Job Store and the Record Store as they
    are, writes to no connection and publishes nothing, and removes the
    file at [filePath] from temporary storage (the only thing it logs is
    that removal, when there was a file). *)
Theorem C10_missing_job (E : Env) (jobId filePath : string) (s : State) :
  jobStore s !! jobId = None ->
  let out := processCsvJob E jobId filePath s in
  out.1 = Ok tt
  /\ jobStore out.2 = jobStore s
  /\ customerStore out.2 = customerStore s
  /\ responses out.2 = responses s
  /\ clientsByJobId out.2 = clientsByJobId s
  /\ files out.2 = delete filePath (files s)
  /\ history out.2
     = history s ++ match files s !! filePath with
                    | Some _ => [Unlinked filePath]
                    | None => []
                    end.
Proof.
  intros Hnone out. subst out.
  unfold processCsvJob, bind, Job_findById, gets. cbn beta iota.
  rewrite Hnone. rewrite safeDelete_run. cbn [fst snd].
  destruct (files s !! filePath) eqn:Hf; simpl.
  - done.
  - rewrite app_nil_r. split_and!; try done. by rewrite delete_id.
Qed.

Lemma C10_witness :
  let s := set_files {[ "/uploads/a.csv" := Scenario.fourRows ]} emptyWorld in
  jobStore s !! "job0" = None
  /\ files (processCsvJob Scenario.calm "job0" "/uploads/a.csv" s).2 = ∅.
Proof.
  split; [reflexivity|].
  destruct (C10_missing_job Scenario.calm "job0" "/uploads/a.csv"
              (set_files {[ "/uploads/a.csv" := Scenario.fourRows ]} emptyWorld)
              eq_refl) as (_ & _ & _ & _ & _ & -> & _).
  vm_compute. reflexivity.
Defined.

(** ** An observer of a job that is over *)

Section Observer.

Variable E : Env.

Lemma onResponse_first res f s :
  onResponse res f s
  = (Ok tt, touch res (f (default Response.fresh (responses s !! res))) s).
Proof. reflexivity. Qed.

Lemma onResponse_touch res f r s :
  onResponse res f (touch res r s) = (Ok tt, touch res (f r) s).
Proof.
  unfold onResponse, modify, touch. simpl.
  rewrite lookup_insert_eq, insert_insert_eq. reflexivity.
Qed.

Lemma res_write_touch res chunk r s :
  writeFailure E res = false ->
  res_write E res chunk (touch res r s)
  = (Ok tt, touch res (Response.write chunk r) s).
Proof. intros Hw. unfold res_write. rewrite Hw. apply onResponse_touch. Qed.

Lemma sendEvent_touch res event data r s :
  writeFailure E res = false ->
  sendEvent E res event data (touch res r s)
  = (Ok tt,
     touch res (Response.write (CData data) (Response.write (CEvent event) r)) s).
Proof.
  intros Hw. unfold sendEvent, writeSafe, try_catch, bind.
  rewrite res_write_touch by done. cbn beta iota. unfold ret at 1 2.
  rewrite res_write_touch by done. reflexivity.
Qed.

Lemma streamJob_terminal_run jobId res j s :
  jobId <> "" -> isValidObjectId E jobId = true -> writeFailure E res = false ->
  jobStore s !! jobId = Some j -> isTerminal (status j) = true ->
  exists r,
    streamJob E jobId res s = (Ok tt, touch res r s)
    /\ Response.written r
       = Response.written (default Response.fresh (responses s !! res))
         ++ terminalChunks jobId j
    /\ Response.ended r = true.
Proof.
  intros Hid Hvalid Hw Hj Hterm.
  unfold streamJob, try_catch.
  rewrite bool_decide_eq_false_2 by done. rewrite Hvalid. cbn [negb orb].
  unfold bind at 1. rewrite onResponse_first. cbn beta iota.
  do 4 (unfold bind at 1; rewrite onResponse_touch; cbn beta iota).
  unfold bind at 1. rewrite res_write_touch by done. cbn beta iota.
  unfold bind at 1, Job_findById, gets. cbn beta iota.
  change (jobStore (touch res ?r s)) with (jobStore s). rewrite Hj.
  unfold bind at 1. rewrite sendEvent_touch by done. cbn beta iota.
  rewrite Hterm.
  unfold bind at 1. rewrite sendEvent_touch by done. cbn beta iota.
  unfold res_end. rewrite onResponse_touch.
  eexists. split; [reflexivity|]. split; [|reflexivity].
  unfold terminalChunks. simpl. rewrite <- !app_assoc. reflexivity.
Qed.

End Observer.

(** C7, as stated, fails: an observer that attaches to a completed job
    receives a progress event, the snapshot of the job, before the terminal
    event. *)
Lemma C7_counterexample :
  Scenario.stored Scenario.imported "job0" = Some (completed, 4, 4, 2, 2, 2%nat)
  /\ (fun r => map fst (received None (Response.written r)))
       <$> responses (world (step Scenario.calm (Stream "job0" 7) Scenario.imported))
           !! 7%nat
     = Some ["progress"; "done"]
  /\ clientsByJobId (world (step Scenario.calm (Stream "job0" 7) Scenario.imported))
       !! "job0" = None.
Proof. vm_compute. done. Qed.

(** C7 (amended): an observer that attaches, with a well-formed
    identifier and over a working connection, to a job whose status is
    already [completed] or [failed] is sent the reconnection hint, exactly
    one progress event carrying the snapshot of the job, and then exactly
    one terminal event; its connection is ended; and it is not added to the
    registry, gets no keep-alive timer and no close handler. *)
Theorem C7_terminal_observer (E : Env) (jobId : string) (res : nat)
    (j : JobDoc) (s : State) :
  jobId <> "" -> isValidObjectId E jobId = true -> writeFailure E res = false ->
  jobStore s !! jobId = Some j -> isTerminal (status j) = true ->
  let s' := (streamJob E jobId res s).2 in
  (exists r,
      responses s' !! res = Some r
      /\ Response.written r
         = Response.written (default Response.fresh (responses s !! res))
           ++ terminalChunks jobId j
      /\ Response.ended r = true)
  /\ received None (terminalChunks jobId j)
     = [("progress", DProgress (toProgressPayload jobId j));
        ("done", DDone jobId (status j))]
  /\ clientsByJobId s' = clientsByJobId s
  /\ pingTimers s' = pingTimers s
  /\ closeHandlers s' = closeHandlers s.
Proof.
  intros Hid Hvalid Hw Hj Hterm s'. subst s'.
  destruct (streamJob_terminal_run E jobId res j s Hid Hvalid Hw Hj Hterm)
    as (r & -> & Hr & Hend).
  split; [|done].
  exists r. split; [|done]. simpl. apply lookup_insert_eq.
Qed.

Lemma C7_witness :
  clientsByJobId (streamJob Scenario.calm "job0" 7 (world Scenario.imported)).2
  = clientsByJobId (world Scenario.imported).
Proof.
  destruct (jobStore (world Scenario.imported) !! "job0") as [j|] eqn:Hj;
    [|vm_compute in Hj; discriminate].
  refine (proj1 (proj2 (proj2
    (C7_terminal_observer Scenario.calm "job0" 7 j (world Scenario.imported)
       _ _ _ Hj _)))).
  - discriminate.
  - reflexivity.
  - reflexivity.
  - vm_compute in Hj. injection Hj as <-. reflexivity.
Defined.

(** ** A fatal error *)

Section Fatal.

Variable E : Env.


End Fatal.




(** ** The phone of a customer *)

Section Phone.

Variable E : Env.

Lemma length_below_one (x : string) :
  (String.length x <? 1)%nat = bool_decide (x = "").
Proof. by destruct x. Qed.

(** Whether a row is valid does not depend on its phone. *)
Lemma safeParse_valid r :
  (exists data, safeParse E r = inl data)
  <-> Js.trim (CustomerRow.name r) <> ""
      /\ isEmail E (Js.trim (CustomerRow.email r)) = true
      /\ Js.trim (CustomerRow.company r) <> "".
Proof.
  unfold safeParse. rewrite !length_below_one.
  destruct (isEmail E (Js.trim (CustomerRow.email r)));
    repeat case_bool_decide; simpl;
    (split; [intros [data Hd]; by try discriminate Hd
            |intros (K1 & K2 & K3); by eauto]).
Qed.

(** The messages of an invalid row: none is about the phone. *)
Lemma safeParse_issues r issues :
  safeParse E r = inr issues ->
  Forall (fun m => m ∈ ["name is required"; "invalid email"; "company is required"])
         issues.
Proof.
  unfold safeParse.
  destruct (String.length (Js.trim (CustomerRow.name r)) <? 1)%nat;
    destruct (isEmail E (Js.trim (CustomerRow.email r)));
    destruct (String.length (Js.trim (CustomerRow.company r)) <? 1)%nat;
    simpl; intros [= <-]; repeat constructor.
Qed.

(** Reporting progress to [persistProgress] leaves the Record Store
    alone. *)
Lemma rowBody_customers jobId filePath raw s :
  customerStore (rowBody E (importOptions E jobId filePath) raw s).2
  = customerStore (rowOutcome E (importOptions E jobId filePath) raw s).2.
Proof.
  rewrite rowBody_outcome. unfold bind.
  pose proof (rowOutcome_ok E (importOptions E jobId filePath) raw s) as Hok.
  destruct (rowOutcome E (importOptions E jobId filePath) raw s) as [r s1].
  cbn [fst snd] in *. subst r.
  unfold emitProgress. cbn [ProcessFileOptions.onProgress importOptions].
  unfold bind, gets. cbn [fst snd].
  destruct (_ && _)%bool; [reflexivity|].
  pose proof (persistProgress_run E (progress s1) s1) as H. cbv zeta in H.
  destruct (saveFailure E (saveCalls s1)); [by rewrite H|].
  by destruct H as (rs & ->).
Qed.

(** The phone [normalizeRow] reads from a raw row. *)
Lemma phone_of_valid_row raw data :
  safeParse E (normalizeRow raw) = inl data ->
  CustomerRow.phone data = Js.trim (default "" (raw !! "phone")).
Proof. intros H. by apply safeParse_inl in H as (-> & _). Qed.

End Phone.

(** C8: an absent or blank phone is valid, the validity of a row and its
    messages never depending on the phone, which [normalizeRow] trims and
    the schema leaves as it is.  A valid row for which [Customer.create]
    returns adds one customer to the Record Store, who has no phone when
    the trimmed phone of the row is empty and that trimmed phone
    otherwise; a row that is not valid, or for which [Customer.create]
    throws, leaves the Record Store as it is.  No customer in the Record
    Store ever has the empty string for a phone. *)
Theorem C8_phone (E : Env) :
  (forall raw,
      ((exists data, safeParse E (normalizeRow raw) = inl data)
       <-> CustomerRow.name (normalizeRow raw) <> ""
           /\ isEmail E (CustomerRow.email (normalizeRow raw)) = true
           /\ CustomerRow.company (normalizeRow raw) <> "")
      /\ (forall issues,
            safeParse E (normalizeRow raw) = inr issues ->
            Forall (fun m => m ∈ ["name is required"; "invalid email";
                                  "company is required"]) issues)
      /\ (forall data,
            safeParse E (normalizeRow raw) = inl data ->
            CustomerRow.phone data = Js.trim (default "" (raw !! "phone"))))
  /\ (forall jobId filePath raw data s,
        safeParse E (normalizeRow raw) = inl data ->
        (createArgs E (importOptions E jobId filePath) data s).1 = Ok tt ->
        exists c,
          customerStore (rowBody E (importOptions E jobId filePath) raw s).2
          = customerStore s ++ [c]
          /\ c_jobId c = jobId
          /\ c_phone c
             = let phone := Js.trim (default "" (raw !! "phone")) in
               if bool_decide (phone = "") then None else Some phone)
  /\ (forall jobId filePath raw s,
        (forall data,
            safeParse E (normalizeRow raw) = inl data ->
            (createArgs E (importOptions E jobId filePath) data s).1 <> Ok tt) ->
        customerStore (rowBody E (importOptions E jobId filePath) raw s).2
        = customerStore s)
  /\ (forall inputs,
        Forall (fun c => c_phone c <> Some "")
          (customerStore (world (serve E inputs initial)))).
Proof.
  split; [|split; [|split]].
  - intros raw. split; [|split].
    + rewrite safeParse_valid. unfold normalizeRow.
      cbn [CustomerRow.name CustomerRow.email CustomerRow.company].
      by rewrite trim_toLowerCase, !trim_idempotent.
    + apply safeParse_issues.
    + apply phone_of_valid_row.
  - intros jobId filePath raw data s Hv Hc.
    rewrite (rowBody_customers E jobId filePath raw s).
    set (options := importOptions E jobId filePath) in *.
    destruct (createArgs_run E options data s)
      as [(e & calls & Hrun)|(c & Hrun & Hp & Hj)];
      rewrite Hrun in Hc; cbn [fst] in Hc; [discriminate|].
    rewrite (rowOutcome_inserted E options raw data s _ Hv Hrun).
    exists c. split; [reflexivity|]. split; [exact Hj|].
    rewrite Hp, (phone_of_valid_row E raw data Hv). cbv zeta.
    destruct (bool_decide (Js.trim (default "" (raw !! "phone")) = ""));
      [reflexivity|].
    cbn [fmap option_fmap option_map]. by rewrite trim_idempotent.
  - intros jobId filePath raw s Hno.
    rewrite (rowBody_customers E jobId filePath raw s).
    set (options := importOptions E jobId filePath) in *.
    destruct (safeParse E (normalizeRow raw)) as [data|issues] eqn:Hv.
    + destruct (createArgs_run E options data s)
        as [(e & calls & Hrun)|(c & Hrun & _)].
      * rewrite (rowOutcome_refused E options raw data e s _ Hv Hrun).
        cbn. apply app_nil_r.
      * destruct (Hno data eq_refl). by rewrite Hrun.
    + by rewrite (rowOutcome_invalid E options raw issues s Hv).
  - intros inputs. by destruct (serve_sound E inputs) as [_ _ H].
Qed.

(** The first row of the example file is inserted with its phone
    trimmed. *)
Lemma C8_witness :
  exists c,
    customerStore
      (rowBody Scenario.calm (importOptions Scenario.calm "job0" "/uploads/a.csv")
         Scenario.ann emptyWorld).2
    = customerStore emptyWorld ++ [c]
    /\ c_jobId c = "job0"
    /\ c_phone c = Some "123".
Proof.
  exact (proj1 (proj2 (C8_phone Scenario.calm)) "job0" "/uploads/a.csv"
           Scenario.ann
           {| CustomerRow.name := "Ann"; CustomerRow.email := "ann@x.io";
              CustomerRow.phone := "123"; CustomerRow.company := "Acme" |}
           emptyWorld eq_refl eq_refl).
Defined.

(** A row with a blank phone is inserted without a phone. *)
Example blank_phone :
  c_phone
    <$> customerStore
          (rowBody Scenario.calm (importOptions Scenario.calm "job0" "/uploads/a.csv")
             Scenario.di emptyWorld).2
  = [None].
Proof. vm_compute. reflexivity. Qed.

(** ** A row the Record Store refuses *)

Lemma C3_witness :
  CsvProgress.lastError
    (progress
       (rowBody Scenario.calm (importOptions Scenario.calm "job0" "/uploads/a.csv")
          Scenario.annAgain Scenario.beforeDuplicate).2)
  = Some "email must be unique".
Proof.
  refine (proj1 (proj2 (proj2 (proj2
    (C3_insert_failure Scenario.calm
       (importOptions Scenario.calm "job0" "/uploads/a.csv") Scenario.annAgain
       {| CustomerRow.name := "Cy"; CustomerRow.email := "ann@x.io";
          CustomerRow.phone := ""; CustomerRow.company := "Acme" |}
       Exn.duplicateKey Scenario.beforeDuplicate _ _ _))))).
  - apply importOptions_keepsLocals.
  - vm_compute. reflexivity.
  - vm_compute. reflexivity.
Defined.

(** ** The queue *)

Section Queue.

Import InMemoryJobQueue.

Implicit Types (q : InMemoryJobQueue.t) (j : QueueJob.t).












End Queue.

Section QueueOfService.

Variable E : Env.



End QueueOfService.

(** ** When the importer returns, the job is over *)

Section Keeps.

Context {X : Type} (f : State -> X).









End Keeps.

(** The writes to the Job Store are counted, and the count never goes
    down. *)
Section Grows.

Lemma grows_keeps {A} (m : M A) : keeps saveCalls m -> grows m.
Proof. intros H s. by rewrite H. Qed.




End Grows.


Section Terminal.

Variable E : Env.





















End Terminal.

(** ** The queue and the importer together *)

Example three_jobs_in_order :
  InMemoryJobQueue.invokedJobs (InMemoryJobQueue.trace Scenario.threeJobs)
  = [Scenario.jobA; Scenario.jobB; Scenario.jobC].
Proof. vm_compute. reflexivity. Qed.



